(** * Contacts REST backend: repository layer, verified over a shallow embedding

    The development follows the Python sources
    - [src/database/models.py]   (rows [Contact] and [User]),
    - [src/schemas/contacts.py]  (request and response bodies),
    - [src/repository/contacts.py], [src/repository/users.py],
    - [src/routes/contacts.py]   (the HTTP handlers).

    SQLAlchemy statements are kept as first-class values ([select]) that are
    built with [filter_]/[offset_]/[limit_] and run by [execute] against an
    explicit database state.  Python exceptions are the [Raise] outcomes of a
    state-and-exception monad; the wall clock and the health of the storage
    connection are inputs ([Env]).

    What the sources leave to their libraries is modelled as follows.
    - The storage is PostgreSQL, as the docstrings of
      [src/repository/users.py] say: a negative [OFFSET] or [LIMIT] and a
      value longer than its [String(50)] column are errors; [LIKE] reads
      [%], [_] and the backslash escape.
    - The driver sends the integers that come with a request (a contact id,
      the day bound of a birthday query, [OFFSET] and [LIMIT]) as 32-bit
      [Integer] parameters and raises for a value outside that range before
      the statement runs.  Keys read back from the storage and the fields
      of the clock are not checked again.
    - Text is matched and measured byte by byte and [ILIKE] folds the
      letters [A-Z] only.  This is what the storage does on ASCII text, and
      the statements that say which fields a filter matches, or which
      values are too long, are made for ASCII text, and for values whose
      excess over 50 characters is not made of blanks.
    - The list of a table is the order in which the storage returns its
      rows in that state: the statements carry no [ORDER BY], and nothing is
      claimed about that order across states.
    - A refused [INSERT] is taken to leave the id sequence where it was.
    - A flush sends an [UPDATE] only for attributes whose new value differs
      (Python [==]) from the loaded one, and the [onupdate] of [updated_at]
      fires with that [UPDATE] only.
    - One call sees one clock reading and one state of the connection. *)

From Stdlib Require Import ZArith List Bool Ascii String Lia.
Import ListNotations.

Local Open Scope string_scope.
Local Open Scope Z_scope.

(* ================================================================= *)
(** ** Text: case folding and SQL [LIKE] patterns *)

Module Text.

(** ASCII case folding, as [ILIKE] applies it to both operands.  Letters
    outside [A-Z] are left alone. *)
Definition is_upper (c : ascii) : bool :=
  let n := nat_of_ascii c in (Nat.leb 65 n && Nat.leb n 90)%bool.

Definition lower_ascii (c : ascii) : ascii :=
  if is_upper c then ascii_of_nat (nat_of_ascii c + 32) else c.

Fixpoint lower (s : string) : string :=
  match s with
  | EmptyString => EmptyString
  | String c s' => String (lower_ascii c) (lower s')
  end.

(** Python's [needle in haystack]. *)
Fixpoint contains (needle hay : string) : bool :=
  (prefix needle hay ||
   match hay with
   | EmptyString => false
   | String _ hay' => contains needle hay'
   end)%bool.

(** The pattern language of [LIKE]: [%] stands for any run of characters,
    [_] for exactly one, and a backslash makes the next character literal. *)
Inductive tok : Type :=
| TAny
| TOne
| TLit (c : ascii).

Definition is_meta (c : ascii) : bool :=
  (Ascii.eqb c "%" || Ascii.eqb c "_" || Ascii.eqb c "\")%bool.

(** [None]: the pattern ends in a lone escape character, which the
    database rejects. *)
Fixpoint parse_pattern (p : string) : option (list tok) :=
  match p with
  | EmptyString => Some []
  | String c p' =>
      if Ascii.eqb c "%" then option_map (cons TAny) (parse_pattern p')
      else if Ascii.eqb c "_" then option_map (cons TOne) (parse_pattern p')
      else if Ascii.eqb c "\" then
        match p' with
        | EmptyString => None
        | String d p'' => option_map (cons (TLit d)) (parse_pattern p'')
        end
      else option_map (cons (TLit c)) (parse_pattern p')
  end.

Fixpoint match_toks (ts : list tok) (s : string) {struct ts} : bool :=
  match ts with
  | [] => match s with EmptyString => true | _ => false end
  | TAny :: ts' =>
      (fix any (s : string) : bool :=
         (match_toks ts' s ||
          match s with
          | EmptyString => false
          | String _ s' => any s'
          end)%bool) s
  | TOne :: ts' =>
      match s with
      | EmptyString => false
      | String _ s' => match_toks ts' s'
      end
  | TLit c :: ts' =>
      match s with
      | EmptyString => false
      | String d s' => (Ascii.eqb c d && match_toks ts' s')%bool
      end
  end.

(** [s LIKE p] and [s ILIKE p]. *)
Definition like (s p : string) : option bool :=
  option_map (fun ts => match_toks ts s) (parse_pattern p).

Definition ilike (s p : string) : option bool :=
  like (lower s) (lower p).

(** The pattern of the f-string ["%{x}%"]. *)
Definition wrap (x : string) : string := "%" ++ x ++ "%".

(** The reading of a filter as a plain, case-insensitive substring test. *)
Definition substring_ci (needle hay : string) : bool :=
  contains (lower needle) (lower hay).

(** The tokens of a pattern made of literal characters only. *)
Fixpoint lits (s : string) : list tok :=
  match s with
  | EmptyString => []
  | String c s' => TLit c :: lits s'
  end.

Fixpoint no_meta (s : string) : bool :=
  match s with
  | EmptyString => true
  | String c s' => (negb (is_meta c) && no_meta s')%bool
  end.

(** Text in which every character is one byte from 1 to 127; the storage
    holds no zero byte. *)
Definition is_ascii (c : ascii) : bool :=
  let n := nat_of_ascii c in (Nat.leb 1 n && Nat.ltb n 128)%bool.

Fixpoint ascii_only (s : string) : bool :=
  match s with
  | EmptyString => true
  | String c s' => (is_ascii c && ascii_only s')%bool
  end.

End Text.

(* ================================================================= *)
(** ** Dates, the environment and exceptions *)

(** [datetime.date]. *)
Record date : Type := mkDate { year : Z; month : Z; day : Z }.

(** [datetime.datetime]: a date and the microseconds elapsed since
    midnight. *)
Record datetime : Type := mkDateTime { dt_date : date; dt_time : Z }.

(** A [date] written to a [DateTime] column is stored at midnight. *)
Definition midnight (d : date) : datetime :=
  {| dt_date := d; dt_time := 0 |}.

(** What a call observes of the outside world: the wall clock
    ([datetime.now()], [date.today()], SQL [now()]) and whether the storage
    connection answers. *)
Record Env : Type := mkEnv { clock : datetime; storage_up : bool }.

Definition today (env : Env) : date := dt_date (clock env).

(** The exceptions that reach the modelled code. *)
Inductive exn : Type :=
| OperationalError                      (* the storage is unreachable *)
| DataError                             (* value too long, negative LIMIT/OFFSET, bad escape *)
| DBAPIError                            (* a parameter outside the range of its type *)
| IntegrityError                        (* primary or foreign key violated *)
| MultipleResultsFound                  (* [scalar_one_or_none] on several rows *)
| InvalidRequestError                   (* [refresh] of a row that is gone *)
| AttributeError                        (* attribute assignment on [None] *)
| HTTPException (status_code : Z) (detail : string).

Inductive result (A : Type) : Type :=
| Ok (a : A)
| Raise (e : exn).
Arguments Ok {A} a.
Arguments Raise {A} e.

(* ================================================================= *)
(** ** Rows ([src/database/models.py]) and bodies ([src/schemas/contacts.py]) *)

Module Contact.
Record t : Type := mk {
  id : Z;
  first_name : string;
  last_name : string;
  email : string;
  phone_number : string;
  birthday : option datetime;
  created_at : datetime;
  updated_at : datetime;
  user_id : option Z
}.
End Contact.

Module User.
Record t : Type := mk {
  id : Z;
  username : string;
  email : string;
  password : string;
  refresh_token : option string;
  avatar : option string;
  created_at : datetime;
  updated_at : datetime;
  confirmed : bool
}.
End User.

(** [ContactBase], and with it [ContactCreate] and [ContactUpdate], which add
    nothing to it. *)
Module ContactBase.
Record t : Type := mk {
  first_name : string;
  last_name : string;
  email : string;
  phone_number : string;
  birthday : option date
}.
End ContactBase.

(** [ContactInDB], the response model of the contact routes. *)
Module ContactInDB.
Record t : Type := mk {
  first_name : string;
  last_name : string;
  email : string;
  phone_number : string;
  birthday : option date;
  id : Z;
  created_at : datetime;
  updated_at : datetime
}.
End ContactInDB.

(** Modelled from the spec: [UserSchema] is declared in
    [src/schemas/users.py], which is not among the sources.  Its fields are
    those the spec gives a new user (username, email, password) and the ones
    [tests/test_unit_repository_users.py] passes to its constructor. *)
Module UserSchema.
Record t : Type := mk {
  username : string;
  email : string;
  password : string
}.
End UserSchema.

(** The storage: the rows of both tables, in the order the storage returns
    them in that state, the [contacts.id] sequence and the number of
    transactions committed so far. *)
Record Database : Type := mkDatabase {
  contacts : list Contact.t;
  users : list User.t;
  contacts_seq : Z;
  commits : nat
}.

(** Mapped classes: what [select(Contact)] and [select(User)] read. *)
Class Mapped (R : Type) : Type := table : Database -> list R.
#[export] Instance Mapped_Contact : Mapped Contact.t := contacts.
#[export] Instance Mapped_User : Mapped User.t := users.

(* ================================================================= *)
(** ** The state-and-exception monad of a session *)

(** The storage survives an exception: an outcome is paired with the state
    the call leaves behind. *)
Definition M (A : Type) : Type := Database -> result A * Database.

Definition ret {A} (a : A) : M A := fun db => (Ok a, db).
Definition raise {A} (e : exn) : M A := fun db => (Raise e, db).
Definition bind {A B} (m : M A) (k : A -> M B) : M B :=
  fun db =>
    match m db with
    | (Ok a, db') => k a db'
    | (Raise e, db') => (Raise e, db')
    end.
(** [try: m except Exception as e: h e]. *)
Definition try_except {A} (m : M A) (h : exn -> M A) : M A :=
  fun db =>
    match m db with
    | (Ok a, db') => (Ok a, db')
    | (Raise e, db') => h e db'
    end.
Definition lift {A} (r : result A) : M A := fun db => (r, db).

Declare Scope session_scope.
Delimit Scope session_scope with session.
Notation "x <- m ;; k" := (bind m (fun x => k))
  (at level 61, m at next level, right associativity) : session_scope.
Notation "m ;;; k" := (bind m (fun _ => k))
  (at level 61, right associativity) : session_scope.
Local Open Scope session_scope.

(* ================================================================= *)
(** ** Statements and their execution *)

(** A [select] over a mapped class: the criteria of its [WHERE] clause, in
    the order they were added, and the optional [OFFSET] and [LIMIT].  A
    criterion that evaluates to SQL [NULL] rejects the row, so it is folded
    into [false]. *)
Record select (R : Type) : Type := mkSelect {
  whereclause : list (R -> result bool);
  binds : list Z;
  offset_clause : option Z;
  limit_clause : option Z
}.
Arguments mkSelect {R}.
Arguments whereclause {R}.
Arguments binds {R}.
Arguments offset_clause {R}.
Arguments limit_clause {R}.

Definition select_ (R : Type) : select R := mkSelect [] [] None None.

Definition filter_ {R} (p : R -> result bool) (q : select R) : select R :=
  mkSelect (whereclause q ++ [p]) (binds q) (offset_clause q) (limit_clause q).

(** A criterion that compares an [Integer] expression with the integer [v]
    received from the caller: [v] travels as a 32-bit parameter. *)
Definition filter_int32 {R} (v : Z) (p : R -> result bool) (q : select R) : select R :=
  mkSelect (whereclause q ++ [p]) (binds q ++ [v]) (offset_clause q) (limit_clause q).

Definition offset_ {R} (n : Z) (q : select R) : select R :=
  mkSelect (whereclause q) (binds q) (Some n) (limit_clause q).

Definition limit_ {R} (n : Z) (q : select R) : select R :=
  mkSelect (whereclause q) (binds q) (offset_clause q) (Some n).

(** Method chaining: [q |> f |> g] is [q.f().g()]. *)
Notation "q |> f" := (f q) (at level 45, left associativity, only parsing).

(** Column expressions. *)
Definition col_eqZ {R} (col : R -> Z) (v : Z) : R -> result bool :=
  fun r => Ok (col r =? v).

Definition col_eq_nullable {R} (col : R -> option Z) (v : Z) : R -> result bool :=
  fun r => Ok match col r with Some x => x =? v | None => false end.

Definition col_eq_str {R} (col : R -> string) (v : string) : R -> result bool :=
  fun r => Ok (String.eqb (col r) v).

Definition col_ilike {R} (col : R -> string) (pattern : string) : R -> result bool :=
  fun r =>
    match Text.ilike (col r) pattern with
    | Some b => Ok b
    | None => Raise DataError
    end.

(** [extract('month', col) == v] and [extract('day', col) <= v]. *)
Definition extract_month_eq {R} (col : R -> option datetime) (v : Z) : R -> result bool :=
  fun r => Ok match col r with Some t => month (dt_date t) =? v | None => false end.

Definition extract_day_le {R} (col : R -> option datetime) (v : Z) : R -> result bool :=
  fun r => Ok match col r with Some t => day (dt_date t) <=? v | None => false end.

(** The conjunction of the criteria on one row. *)
Fixpoint where_holds {R} (ps : list (R -> result bool)) (r : R) : result bool :=
  match ps with
  | [] => Ok true
  | p :: ps' =>
      match p r with
      | Ok true => where_holds ps' r
      | Ok false => Ok false
      | Raise e => Raise e
      end
  end.

Fixpoint where_rows {R} (ps : list (R -> result bool)) (rows : list R) : result (list R) :=
  match rows with
  | [] => Ok []
  | r :: rows' =>
      match where_holds ps r with
      | Raise e => Raise e
      | Ok b =>
          match where_rows ps rows' with
          | Raise e => Raise e
          | Ok rs => Ok (if b then r :: rs else rs)
          end
      end
  end.

Definition negative (n : option Z) : bool :=
  match n with Some z => z <? 0 | None => false end.

Definition page {R} (off lim : option Z) (rows : list R) : list R :=
  let rows := match off with Some n => skipn (Z.to_nat n) rows | None => rows end in
  match lim with Some n => firstn (Z.to_nat n) rows | None => rows end.

(** The range of a 32-bit [Integer] parameter. *)
Definition max_int32 : Z := 2147483647.

Definition in_int32 (v : Z) : bool :=
  ((- max_int32 - 1 <=? v) && (v <=? max_int32))%bool.

Definition opt_in_int32 (n : option Z) : bool :=
  match n with Some z => in_int32 z | None => true end.

(** The integers of a statement all fit their parameters: those of its
    criteria, its [OFFSET] and its [LIMIT]. *)
Definition parameters_ok {R} (q : select R) : bool :=
  (forallb in_int32 (binds q)
   && opt_in_int32 (offset_clause q) && opt_in_int32 (limit_clause q))%bool.

(** [await db.execute(stmt)] followed by [.scalars().all()]: the selected
    rows.  The driver refuses a parameter outside the 32-bit range, the
    database a negative [OFFSET] or [LIMIT]. *)
Definition execute {R} `{Mapped R} (env : Env) (q : select R) : M (list R) :=
  fun db =>
    if negb (storage_up env) then (Raise OperationalError, db)
    else if negb (parameters_ok q) then (Raise DBAPIError, db)
    else if (negative (offset_clause q) || negative (limit_clause q))%bool
    then (Raise DataError, db)
    else
      match where_rows (whereclause q) (table db) with
      | Ok rows => (Ok (page (offset_clause q) (limit_clause q) rows), db)
      | Raise e => (Raise e, db)
      end.

Definition scalar_one_or_none {R} (rows : list R) : result (option R) :=
  match rows with
  | [] => Ok None
  | [r] => Ok (Some r)
  | _ => Raise MultipleResultsFound
  end.

(* ================================================================= *)
(** ** The unit of work of a session *)

(** What a session holds when [commit] is called: an object handed to
    [db.add], a loaded row with attributes assigned, or a row handed to
    [db.delete]. *)
Inductive change : Type :=
| Added (body : ContactBase.t) (owner : option Z)
| Dirty (loaded : Contact.t) (body : ContactBase.t)
| Deleted (loaded : Contact.t)
| DirtyConfirmed (loaded : User.t) (v : bool).

(** [String(50)]. *)
Definition fits50 (s : string) : bool := Nat.leb (String.length s) 50.

(** Python's [==] between the [date] just assigned and the [datetime] that
    was loaded: never true, a [date] is not a [datetime].  Only [None]
    equals [None]. *)
Definition birthday_same (new : option date) (old : option datetime) : bool :=
  match new, old with
  | None, None => true
  | _, _ => false
  end.

(** The flush emits an [UPDATE] only for attributes whose value changed. *)
Definition net_change (loaded : Contact.t) (b : ContactBase.t) : bool :=
  negb (String.eqb (ContactBase.first_name b) (Contact.first_name loaded)
        && String.eqb (ContactBase.last_name b) (Contact.last_name loaded)
        && String.eqb (ContactBase.email b) (Contact.email loaded)
        && String.eqb (ContactBase.phone_number b) (Contact.phone_number loaded)
        && birthday_same (ContactBase.birthday b) (Contact.birthday loaded))%bool.

Definition set_str (new loaded current : string) : string :=
  if String.eqb new loaded then current else new.

Definition set_ok (new loaded : string) : bool :=
  (String.eqb new loaded || fits50 new)%bool.

(** The row after [UPDATE contacts SET <changed columns>, updated_at = now]. *)
Definition updated (now : datetime) (loaded : Contact.t) (b : ContactBase.t)
    (r : Contact.t) : Contact.t :=
  Contact.mk
    (Contact.id r)
    (set_str (ContactBase.first_name b) (Contact.first_name loaded) (Contact.first_name r))
    (set_str (ContactBase.last_name b) (Contact.last_name loaded) (Contact.last_name r))
    (set_str (ContactBase.email b) (Contact.email loaded) (Contact.email r))
    (set_str (ContactBase.phone_number b) (Contact.phone_number loaded) (Contact.phone_number r))
    (if birthday_same (ContactBase.birthday b) (Contact.birthday loaded)
     then Contact.birthday r
     else option_map midnight (ContactBase.birthday b))
    (Contact.created_at r)
    now
    (Contact.user_id r).

Definition inserted (now : datetime) (pk : Z) (b : ContactBase.t) (owner : option Z)
    : Contact.t :=
  Contact.mk pk
    (ContactBase.first_name b) (ContactBase.last_name b)
    (ContactBase.email b) (ContactBase.phone_number b)
    (option_map midnight (ContactBase.birthday b))
    now now owner.

Definition confirmed_set (now : datetime) (v : bool) (u : User.t) : User.t :=
  User.mk (User.id u) (User.username u) (User.email u) (User.password u)
    (User.refresh_token u) (User.avatar u) (User.created_at u) now v.

Definition with_contacts (db : Database) (cs : list Contact.t) : Database :=
  mkDatabase cs (users db) (contacts_seq db) (commits db).

(** The statements a flush sends and the primary key of the row they touch. *)
Definition flush (env : Env) (ch : change) (db : Database) : result (Z * Database) :=
  match ch with
  | Added b owner =>
      if negb (fits50 (ContactBase.first_name b) && fits50 (ContactBase.last_name b)
               && fits50 (ContactBase.email b) && fits50 (ContactBase.phone_number b))
      then Raise DataError
      else if negb match owner with
                   | Some u => existsb (fun x => User.id x =? u) (users db)
                   | None => true
                   end
      then Raise IntegrityError
      else
        let pk := contacts_seq db in
        if existsb (fun r => Contact.id r =? pk) (contacts db) then Raise IntegrityError
        else Ok (pk, mkDatabase (contacts db ++ [inserted (clock env) pk b owner])
                       (users db) (pk + 1) (commits db))
  | Dirty loaded b =>
      if negb (net_change loaded b) then Ok (Contact.id loaded, db)
      else if negb (set_ok (ContactBase.first_name b) (Contact.first_name loaded)
                    && set_ok (ContactBase.last_name b) (Contact.last_name loaded)
                    && set_ok (ContactBase.email b) (Contact.email loaded)
                    && set_ok (ContactBase.phone_number b) (Contact.phone_number loaded))
      then Raise DataError
      else Ok (Contact.id loaded,
               with_contacts db
                 (map (fun r => if Contact.id r =? Contact.id loaded
                                then updated (clock env) loaded b r else r)
                      (contacts db)))
  | Deleted loaded =>
      Ok (Contact.id loaded,
          with_contacts db
            (filter (fun r => negb (Contact.id r =? Contact.id loaded)) (contacts db)))
  | DirtyConfirmed loaded v =>
      if Bool.eqb v (User.confirmed loaded) then Ok (User.id loaded, db)
      else Ok (User.id loaded,
               mkDatabase (contacts db)
                 (map (fun u => if User.id u =? User.id loaded
                                then confirmed_set (clock env) v u else u)
                      (users db))
                 (contacts_seq db) (commits db))
  end.

(** [await db.commit()]: flush, then commit; a failure rolls back. *)
Definition commit (env : Env) (ch : change) : M Z :=
  fun db =>
    if negb (storage_up env) then (Raise OperationalError, db)
    else
      match flush env ch db with
      | Ok (pk, db') =>
          (Ok pk, mkDatabase (contacts db') (users db') (contacts_seq db') (S (commits db')))
      | Raise e => (Raise e, db)
      end.

(** [await db.refresh(contact)]: the row is read again by primary key. *)
Definition refresh (env : Env) (pk : Z) : M Contact.t :=
  rows <- execute env (select_ Contact.t |> filter_ (col_eqZ Contact.id pk)) ;;
  match rows with
  | [r] => ret r
  | _ => raise InvalidRequestError
  end.

(** The same for the users table.  The [users.id] sequence is not part of
    [Database]: the value it hands out comes with the pending object. *)
Inductive user_change : Type :=
| AddedUser (pk : Z) (body : UserSchema.t) (avatar : option string)
| DirtyToken (loaded : User.t) (token : option string)
| DirtyAvatar (loaded : User.t) (url : option string).

(** [String(n)], on a nullable column too. *)
Definition fits (n : nat) (s : string) : bool := Nat.leb (String.length s) n.

Definition fits_nullable (n : nat) (s : option string) : bool :=
  match s with Some x => fits n x | None => true end.

Definition nullable_eqb (a b : option string) : bool :=
  match a, b with
  | Some x, Some y => String.eqb x y
  | None, None => true
  | _, _ => false
  end.

Definition inserted_user (now : datetime) (pk : Z) (b : UserSchema.t)
    (avatar : option string) : User.t :=
  User.mk pk (UserSchema.username b) (UserSchema.email b) (UserSchema.password b)
    None avatar now now false.

Definition token_set (now : datetime) (token : option string) (u : User.t) : User.t :=
  User.mk (User.id u) (User.username u) (User.email u) (User.password u)
    token (User.avatar u) (User.created_at u) now (User.confirmed u).

Definition avatar_set (now : datetime) (url : option string) (u : User.t) : User.t :=
  User.mk (User.id u) (User.username u) (User.email u) (User.password u)
    (User.refresh_token u) url (User.created_at u) now (User.confirmed u).

Definition with_users (db : Database) (us : list User.t) : Database :=
  mkDatabase (contacts db) us (contacts_seq db) (commits db).

Definition flush_user (env : Env) (ch : user_change) (db : Database)
    : result (Z * Database) :=
  match ch with
  | AddedUser pk b avatar =>
      if negb (fits 150 (UserSchema.username b) && fits 150 (UserSchema.email b)
               && fits 255 (UserSchema.password b) && fits_nullable 255 avatar)
      then Raise DataError
      else if existsb (fun u => User.id u =? pk) (users db) then Raise IntegrityError
      else if existsb (fun u => String.eqb (User.email u) (UserSchema.email b)) (users db)
      then Raise IntegrityError
      else Ok (pk, with_users db (users db ++ [inserted_user (clock env) pk b avatar]))
  | DirtyToken loaded token =>
      if nullable_eqb token (User.refresh_token loaded) then Ok (User.id loaded, db)
      else if negb (fits_nullable 255 token) then Raise DataError
      else Ok (User.id loaded,
               with_users db
                 (map (fun u => if User.id u =? User.id loaded
                                then token_set (clock env) token u else u)
                      (users db)))
  | DirtyAvatar loaded url =>
      if nullable_eqb url (User.avatar loaded) then Ok (User.id loaded, db)
      else if negb (fits_nullable 255 url) then Raise DataError
      else Ok (User.id loaded,
               with_users db
                 (map (fun u => if User.id u =? User.id loaded
                                then avatar_set (clock env) url u else u)
                      (users db)))
  end.

Definition commit_user (env : Env) (ch : user_change) : M Z :=
  fun db =>
    if negb (storage_up env) then (Raise OperationalError, db)
    else
      match flush_user env ch db with
      | Ok (pk, db') =>
          (Ok pk, mkDatabase (contacts db') (users db') (contacts_seq db') (S (commits db')))
      | Raise e => (Raise e, db)
      end.

(** [await db.refresh(user)]. *)
Definition refresh_user (env : Env) (pk : Z) : M User.t :=
  rows <- execute env (select_ User.t |> filter_ (col_eqZ User.id pk)) ;;
  match rows with
  | [r] => ret r
  | _ => raise InvalidRequestError
  end.

(** Truthiness of an optional query parameter: [None] and [""] are false. *)
Definition truthy (s : option string) : bool :=
  match s with
  | None => false
  | Some EmptyString => false
  | Some _ => true
  end.

Definition text_of (s : option string) : string :=
  match s with Some x => x | None => EmptyString end.

(* ================================================================= *)
(** ** [src/repository/contacts.py] *)

Module repository_contacts.

(** [filter_by(user_id=user.id)] and [filter_by(id=..., user_id=...)]. *)
Definition by_owner (user : User.t) : Contact.t -> result bool :=
  col_eq_nullable Contact.user_id (User.id user).

Definition by_id (contact_id : Z) : Contact.t -> result bool :=
  col_eqZ Contact.id contact_id.

(** The logging calls of the handler are not modelled. *)
Definition create (env : Env) (body : ContactBase.t) (user : User.t) : M Contact.t :=
  try_except
    (pk <- commit env (Added body (Some (User.id user))) ;;
     refresh env pk)
    (fun _ => raise (HTTPException 500 "Internal Server Error")).

Definition get_contacts (env : Env) (limit offset : Z) (user : User.t)
    : M (list Contact.t) :=
  let stmt := select_ Contact.t |> filter_ (by_owner user)
              |> offset_ offset |> limit_ limit in
  execute env stmt.

Definition get_contact (env : Env) (contact_id : Z) (user : User.t)
    : M (option Contact.t) :=
  let stmt := select_ Contact.t |> filter_int32 contact_id (by_id contact_id)
              |> filter_ (by_owner user) in
  contact <- execute env stmt ;;
  lift (scalar_one_or_none contact).

Definition update_contact (env : Env) (contact_id : Z) (body : ContactBase.t)
    (user : User.t) : M (option Contact.t) :=
  let stmt := select_ Contact.t |> filter_int32 contact_id (by_id contact_id)
              |> filter_ (by_owner user) in
  result <- execute env stmt ;;
  contact <- lift (scalar_one_or_none result) ;;
  match contact with
  | Some c =>
      commit env (Dirty c body) ;;;
      c' <- refresh env (Contact.id c) ;;
      ret (Some c')
  | None => ret None
  end.

Definition delete_contact (env : Env) (contact_id : Z) (user : User.t)
    : M (option Contact.t) :=
  let stmt := select_ Contact.t |> filter_int32 contact_id (by_id contact_id)
              |> filter_ (by_owner user) in
  contact <- execute env stmt ;;
  contact <- lift (scalar_one_or_none contact) ;;
  match contact with
  | Some c =>
      commit env (Deleted c) ;;;
      ret (Some c)
  | None => ret None
  end.

Definition get_birthdays (env : Env) (days : Z) (user : User.t)
    : M (list Contact.t) :=
  let days := days + 1 in
  let filter_month := month (today env) in
  let filter_day := day (today env) in
  let stmt := select_ Contact.t
              |> filter_ (by_owner user)
              |> filter_ (extract_month_eq Contact.birthday filter_month)
              |> filter_int32 (filter_day + days)
                   (extract_day_le Contact.birthday (filter_day + days)) in
  execute env stmt.

(** The statement [search] builds before it enters its [try] block. *)
Definition search_query (first_name last_name email : option string)
    (skip limit : Z) (user : User.t) : select Contact.t :=
  let query := select_ Contact.t |> filter_ (by_owner user) in
  let query :=
    if truthy first_name
    then query |> filter_ (col_ilike Contact.first_name (Text.wrap (text_of first_name)))
    else query in
  let query :=
    if truthy last_name
    then query |> filter_ (col_ilike Contact.last_name (Text.wrap (text_of last_name)))
    else query in
  let query :=
    if truthy email
    then query |> filter_ (col_ilike Contact.email (Text.wrap (text_of email)))
    else query in
  query |> offset_ skip |> limit_ limit.

Definition search (env : Env) (first_name last_name email : option string)
    (skip limit : Z) (user : User.t) : M (list Contact.t) :=
  let result_query := search_query first_name last_name email skip limit user in
  try_except (execute env result_query) (fun _ => ret []).

End repository_contacts.

(* ================================================================= *)
(** ** [src/repository/users.py] *)

Module repository_users.

Definition get_user_by_email (env : Env) (email : string) : M (option User.t) :=
  let stmt := select_ User.t |> filter_ (col_eq_str User.email email) in
  user <- execute env stmt ;;
  lift (scalar_one_or_none user).

(** [user.confirmed = True] on [None] raises before anything is
    committed. *)
Definition confirmed_email (env : Env) (email : string) : M unit :=
  user <- get_user_by_email env email ;;
  match user with
  | None => raise AttributeError
  | Some u =>
      commit env (DirtyConfirmed u true) ;;;
      ret tt
  end.

(** [libgravatar] is not part of the sources: [gravatar] stands for
    [Gravatar(email).get_image()], an image address or an exception.  [pk] is
    the value of the [users.id] sequence. *)
Definition create_user (env : Env) (pk : Z) (gravatar : string -> result string)
    (body : UserSchema.t) : M User.t :=
  let avatar :=
    match gravatar (UserSchema.email body) with
    | Ok url => Some url
    | Raise _ => None
    end in
  pk <- commit_user env (AddedUser pk body avatar) ;;
  refresh_user env pk.

Definition update_token (env : Env) (user : User.t) (token : option string) : M unit :=
  commit_user env (DirtyToken user token) ;;;
  ret tt.

Definition update_avatar_url (env : Env) (email : string) (url : option string)
    : M User.t :=
  user <- get_user_by_email env email ;;
  match user with
  | None => raise AttributeError
  | Some u =>
      commit_user env (DirtyAvatar u url) ;;;
      refresh_user env (User.id u)
  end.

End repository_users.

(* ================================================================= *)
(** ** [src/routes/contacts.py] *)

Module routes_contacts.

(** What the HTTP caller receives: a serialised contact under the status
    code declared on the route, or the status and detail of an
    [HTTPException]. *)
Inductive response : Type :=
| JSONResponse (status : Z) (content : ContactInDB.t)
| ErrorResponse (status : Z) (detail : string).

Definition status_of (r : response) : Z :=
  match r with
  | JSONResponse s _ => s
  | ErrorResponse s _ => s
  end.

(** [response_model=ContactInDB]: the row without its owner, the birthday
    as a date. *)
Definition to_ContactInDB (c : Contact.t) : ContactInDB.t :=
  ContactInDB.mk
    (Contact.first_name c) (Contact.last_name c) (Contact.email c)
    (Contact.phone_number c) (option_map dt_date (Contact.birthday c))
    (Contact.id c) (Contact.created_at c) (Contact.updated_at c).

(** The framework's part: a returned row is serialised under the route's
    status code, an [HTTPException] becomes its own status, anything else
    is a 500. *)
Definition respond (status_code : Z) (m : M Contact.t) : Database -> response * Database :=
  fun db =>
    match m db with
    | (Ok c, db') => (JSONResponse status_code (to_ContactInDB c), db')
    | (Raise (HTTPException s d), db') => (ErrorResponse s d, db')
    | (Raise _, db') => (ErrorResponse 500 "Internal Server Error", db')
    end.

Definition HTTP_201_CREATED : Z := 201.
Definition HTTP_404_NOT_FOUND : Z := 404.

(** [@router.post("/", status_code=201)]; the handler's own
    [except Exception] also receives the repository's [HTTPException]. *)
Definition create_contact (env : Env) (contact_data : ContactBase.t) (user : User.t)
    : Database -> response * Database :=
  respond HTTP_201_CREATED
    (try_except
       (repository_contacts.create env contact_data user)
       (fun _ => raise (HTTPException HTTP_404_NOT_FOUND "NOT FOUND"))).

(** The other handlers answer with lists, whole rows or nothing: a reply
    carries its content type.  [Unprocessable] is the 422 of a parameter
    outside its declared bounds. *)
Inductive reply (A : Type) : Type :=
| Sent (status : Z) (content : A)
| Refused (status : Z) (detail : string)
| Unprocessable.
Arguments Sent {A} status content.
Arguments Refused {A} status detail.
Arguments Unprocessable {A}.

Definition reply_status {A} (r : reply A) : Z :=
  match r with
  | Sent s _ => s
  | Refused s _ => s
  | Unprocessable => 422
  end.

Definition answer {A B} (status_code : Z) (encode : A -> B) (m : M A)
    : Database -> reply B * Database :=
  fun db =>
    match m db with
    | (Ok a, db') => (Sent status_code (encode a), db')
    | (Raise (HTTPException s d), db') => (Refused s d, db')
    | (Raise _, db') => (Refused 500 "Internal Server Error", db')
    end.

(** [Query(default, ge=lo, le=hi)] and [Path(ge=lo)]: the value the handler
    receives, or nothing when the request is refused. *)
Definition bounded (default : Z) (ge : option Z) (le : option Z) (given : option Z)
    : option Z :=
  let v := match given with Some x => x | None => default end in
  if (match ge with Some lo => lo <=? v | None => true end
      && match le with Some hi => v <=? hi | None => true end)%bool
  then Some v else None.

Definition HTTP_200_OK : Z := 200.
Definition HTTP_204_NO_CONTENT : Z := 204.

(** [@router.get("/", response_model=list[ContactInDB])]. *)
Definition get_contacts (env : Env) (limit offset : option Z) (user : User.t)
    : Database -> reply (list ContactInDB.t) * Database :=
  fun db =>
    match bounded 10 (Some 10) (Some 500) limit, bounded 0 (Some 0) None offset with
    | Some limit, Some offset =>
        answer HTTP_200_OK (map to_ContactInDB)
          (repository_contacts.get_contacts env limit offset user) db
    | _, _ => (Unprocessable, db)
    end.

(** [@router.get("/search", response_model=list[ContactInDB])]: [skip] has a
    default and no bound. *)
Definition serch (env : Env) (first_name last_name email : option string)
    (skip limit : option Z) (user : User.t)
    : Database -> reply (list ContactInDB.t) * Database :=
  fun db =>
    match bounded 0 None None skip, bounded 10 (Some 10) (Some 100) limit with
    | Some skip, Some limit =>
        answer HTTP_200_OK (map to_ContactInDB)
          (repository_contacts.search env first_name last_name email skip limit user) db
    | _, _ => (Unprocessable, db)
    end.

(** [@router.get("/{contact_id}", response_model=ContactInDB)]. *)
Definition get_contact (env : Env) (contact_id : Z) (user : User.t)
    : Database -> reply ContactInDB.t * Database :=
  fun db =>
    match bounded 0 (Some 1) None (Some contact_id) with
    | Some contact_id =>
        answer HTTP_200_OK to_ContactInDB
          (contact <- repository_contacts.get_contact env contact_id user ;;
           match contact with
           | None => raise (HTTPException HTTP_404_NOT_FOUND "NOT FOUND")
           | Some c => ret c
           end) db
    | None => (Unprocessable, db)
    end.

(** [@router.put("/{contact_id}")]: no response model, the row is sent with
    all its columns. *)
Definition update_contact (env : Env) (body : ContactBase.t) (contact_id : Z)
    (user : User.t) : Database -> reply Contact.t * Database :=
  fun db =>
    match bounded 0 (Some 1) None (Some contact_id) with
    | Some contact_id =>
        answer HTTP_200_OK (fun c => c)
          (contact <- repository_contacts.update_contact env contact_id body user ;;
           match contact with
           | None => raise (HTTPException HTTP_404_NOT_FOUND "NOT FOUND")
           | Some c => ret c
           end) db
    | None => (Unprocessable, db)
    end.

(** [@router.delete("/{contact_id}", status_code=204)]: whatever the
    repository returns is sent as an empty 204. *)
Definition delete_contact (env : Env) (contact_id : Z) (user : User.t)
    : Database -> reply unit * Database :=
  fun db =>
    match bounded 0 (Some 1) None (Some contact_id) with
    | Some contact_id =>
        answer HTTP_204_NO_CONTENT (fun _ => tt)
          (repository_contacts.delete_contact env contact_id user) db
    | None => (Unprocessable, db)
    end.

End routes_contacts.

(* ================================================================= *)
(** ** Sample data *)

Module Sample.

Definition t0 : datetime := mkDateTime (mkDate 2024 5 30) 1000.
Definition t1 : datetime := mkDateTime (mkDate 2024 5 30) 2000.
Definition t2 : datetime := mkDateTime (mkDate 2024 5 30) 3000.

Definition up (now : datetime) : Env := mkEnv now true.
Definition down (now : datetime) : Env := mkEnv now false.

Definition alice : User.t :=
  User.mk 1 "alice" "alice@x.com" "hash1" None None t0 t0 false.
Definition bob : User.t :=
  User.mk 2 "bob" "bob@x.com" "hash2" None None t0 t0 true.

Definition john : Contact.t :=
  Contact.mk 1 "John" "Doe" "john@x.com" "123"
    (Some (midnight (mkDate 1990 5 31))) t0 t0 (Some 1).
Definition jane : Contact.t :=
  Contact.mk 2 "Jane" "Roe" "jane@x.com" "456"
    (Some (midnight (mkDate 1985 6 2))) t0 t0 (Some 1).
Definition carl : Contact.t :=
  Contact.mk 3 "Carl" "Poe" "carl@y.org" "789" None t0 t0 (Some 2).

Definition db0 : Database := mkDatabase [john; jane; carl] [alice; bob] 4 0.

Definition body_john : ContactBase.t :=
  ContactBase.mk "John" "Doe" "john@x.com" "123" None.
Definition body_jon : ContactBase.t :=
  ContactBase.mk "Jon" "Doe" "jon@x.com" "321" (Some (mkDate 1990 5 31)).
Definition long_name : string :=
  "Maximilian-Alexander-Bartholomew-Constantine-Fitzgerald".
Definition body_long : ContactBase.t :=
  ContactBase.mk long_name "Doe" "max@x.com" "123" None.

Definition carol_form : UserSchema.t :=
  UserSchema.mk "carol" "carol@x.com" "hash3".
Definition gravatar_ok (email : string) : result string :=
  Ok ("https://www.gravatar.com/avatar/" ++ email).
Definition gravatar_broken (email : string) : result string :=
  Raise AttributeError.

End Sample.

(* ================================================================= *)
(** ** The properties under verification, as the specification words them *)

Module Spec.

(** Owner scoping: the row belongs to the requesting user. *)
Definition owned (user : User.t) (c : Contact.t) : bool :=
  match Contact.user_id c with
  | Some u => u =? User.id user
  | None => false
  end.

(** "birthday month matches the current month and birthday day-of-month
    is <= (current day-of-month + days + 1)". *)
Definition birthday_within (env : Env) (days : Z) (c : Contact.t) : bool :=
  match Contact.birthday c with
  | Some b =>
      ((month (dt_date b) =? month (today env))
       && (day (dt_date b) <=? day (today env) + days + 1))%bool
  | None => false
  end.

Definition birthdaysWithin (env : Env) (days : Z) (user : User.t) (db : Database)
    : list Contact.t :=
  filter (fun c => (owned user c && birthday_within env days c)%bool) (contacts db).

(** The claim that [get_birthdays] returns exactly that list. *)
Definition returns_window (env : Env) (days : Z) (user : User.t) (db : Database)
    : Prop :=
  fst (repository_contacts.get_birthdays env days user db)
  = Ok (birthdaysWithin env days user db).

(** The same contact born in another year. *)
Definition born_in_year (y : Z) (c : Contact.t) : Contact.t :=
  Contact.mk (Contact.id c) (Contact.first_name c) (Contact.last_name c)
    (Contact.email c) (Contact.phone_number c)
    (option_map (fun b => mkDateTime (mkDate y (month (dt_date b)) (day (dt_date b)))
                                     (dt_time b))
                (Contact.birthday c))
    (Contact.created_at c) (Contact.updated_at c) (Contact.user_id c).

(** "each supplied filter performs a case-insensitive substring match;
    absent filters are not applied". *)
Definition substring_filter (f : option string) (field : string) : bool :=
  if truthy f then Text.substring_ci (text_of f) field else true.

(** What the statement really asks of a field: [field ILIKE '%f%']. *)
Definition ilike_filter (f : option string) (field : string) : bool :=
  if truthy f
  then match Text.ilike field (Text.wrap (text_of f)) with
       | Some b => b
       | None => false
       end
  else true.

Definition search_selects (first_name last_name email : option string)
    (user : User.t) (c : Contact.t) : bool :=
  (owned user c
   && ilike_filter first_name (Contact.first_name c)
   && ilike_filter last_name (Contact.last_name c)
   && ilike_filter email (Contact.email c))%bool.

(** The claim that [search] without filters returns what [get_contacts]
    returns. *)
Definition same_result_set (env : Env) (first_name last_name email : option string)
    (skip limit : Z) (user : User.t) (db : Database) : Prop :=
  fst (repository_contacts.search env first_name last_name email skip limit user db)
  = fst (repository_contacts.get_contacts env limit skip user db).

(** The claim that every returned contact contains every supplied filter
    as a case-insensitive substring. *)
Definition filters_are_substring_tests (env : Env)
    (first_name last_name email : option string) (skip limit : Z)
    (user : User.t) (db : Database) : Prop :=
  forall rows c,
    fst (repository_contacts.search env first_name last_name email skip limit user db)
      = Ok rows ->
    In c rows ->
    substring_filter first_name (Contact.first_name c) = true /\
    substring_filter last_name (Contact.last_name c) = true /\
    substring_filter email (Contact.email c) = true.

(** The claim that confirming an unknown address completes quietly. *)
Definition fails_silently (env : Env) (email : string) (db : Database) : Prop :=
  repository_users.confirmed_email env email db = (Ok tt, db).




(** A body the four [String(50)] columns accept. *)
Definition fits_columns (b : ContactBase.t) : bool :=
  (fits50 (ContactBase.first_name b) && fits50 (ContactBase.last_name b)
   && fits50 (ContactBase.email b) && fits50 (ContactBase.phone_number b))%bool.

(** The sequence is ahead of every stored primary key. *)
Definition seq_fresh (db : Database) : Prop :=
  forall c, In c (contacts db) -> Contact.id c < contacts_seq db.

End Spec.

(* ================================================================= *)
(** ** Auxiliary notions of the proofs *)

Local Open Scope bool_scope.

(** Criteria that never raise are a boolean test on the row. *)
Definition decided_by {R} (ps : list (R -> result bool)) (fs : list (R -> bool)) : Prop :=
  Forall2 (fun p f => forall r, p r = Ok (f r)) ps fs.

Definition all_hold {R} (fs : list (R -> bool)) (r : R) : bool :=
  forallb (fun f => f r) fs.

Ltac decide_where :=
  repeat first [ apply Forall2_nil
               | apply Forall2_cons; [intro; reflexivity|] ].

(** The statement shared by [get_contact], [update_contact] and
    [delete_contact], and the rows it selects. *)
Definition lookup_stmt (user : User.t) (contact_id : Z) : select Contact.t :=
  select_ Contact.t
  |> filter_int32 contact_id (repository_contacts.by_id contact_id)
  |> filter_ (repository_contacts.by_owner user).

Definition is_target (user : User.t) (contact_id : Z) (c : Contact.t) : bool :=
  (Contact.id c =? contact_id) && Spec.owned user c.

(** No row carries both the id and the caller's ownership. *)
Definition not_owned (user : User.t) (contact_id : Z) (db : Database) : Prop :=
  forall c, In c (contacts db) ->
    ~ (Contact.id c = contact_id /\ Contact.user_id c = Some (User.id user)).

(** What a lookup by id that selects no row ends in: [None], unless the
    id does not fit its parameter or the storage does not answer. *)
Definition lookup_miss (env : Env) (contact_id : Z) : result (option Contact.t) :=
  if storage_up env
  then if in_int32 contact_id then Ok None else Raise DBAPIError
  else Raise OperationalError.

(** The claim that an id which is no contact of the caller gets the
    not-found sentinel from the three lookups. *)
Definition not_owned_gives_none (env : Env) (user : User.t) (contact_id : Z)
    (body : ContactBase.t) (db : Database) : Prop :=
  not_owned user contact_id db ->
  fst (repository_contacts.get_contact env contact_id user db) = Ok None /\
  fst (repository_contacts.update_contact env contact_id body user db) = Ok None /\
  fst (repository_contacts.delete_contact env contact_id user db) = Ok None.

(** The claim that the writers, given such an id, leave the storage alone
    and return the sentinel. *)
Definition miss_is_silent (env : Env) (user : User.t) (contact_id : Z)
    (body : ContactBase.t) (db : Database) : Prop :=
  not_owned user contact_id db ->
  repository_contacts.update_contact env contact_id body user db = (Ok None, db) /\
  repository_contacts.delete_contact env contact_id user db = (Ok None, db).

(** ASCII filters, and a caller whose contacts have ASCII names and
    addresses. *)
Definition ascii_filter (f : option string) : bool := Text.ascii_only (text_of f).

Definition ascii_row (c : Contact.t) : bool :=
  Text.ascii_only (Contact.first_name c) && Text.ascii_only (Contact.last_name c)
  && Text.ascii_only (Contact.email c).

Definition ascii_rows (user : User.t) (db : Database) : Prop :=
  forall c, In c (contacts db) -> Spec.owned user c = true -> ascii_row c = true.

(** Paging the storage accepts: both integers fit their parameters and
    neither is negative. *)
Definition accepted_paging (offset limit : Z) : bool :=
  in_int32 offset && in_int32 limit && negb ((offset <? 0) || (limit <? 0)).

(** The conditions under which the [INSERT] of [create] goes through, the
    row it stores and the storage it leaves. *)
Definition insertable (env : Env) (body : ContactBase.t) (user : User.t)
    (db : Database) : bool :=
  storage_up env
  && Spec.fits_columns body
  && existsb (fun x => User.id x =? User.id user) (users db)
  && negb (existsb (fun r => Contact.id r =? contacts_seq db) (contacts db)).

Definition new_row (env : Env) (body : ContactBase.t) (user : User.t)
    (db : Database) : Contact.t :=
  inserted (clock env) (contacts_seq db) body (Some (User.id user)).

Definition after_insert (env : Env) (body : ContactBase.t) (user : User.t)
    (db : Database) : Database :=
  mkDatabase (contacts db ++ [new_row env body user db]) (users db)
    (contacts_seq db + 1) (S (commits db)).

Definition has_email (email : string) (u : User.t) : bool :=
  String.eqb (User.email u) email.

(** What the [UPDATE] of a flush does to a row of the table, and whether
    the changed columns accept the new values. *)
Definition touch (now : datetime) (loaded : Contact.t) (body : ContactBase.t)
    (r : Contact.t) : Contact.t :=
  if Contact.id r =? Contact.id loaded then updated now loaded body r else r.

Definition columns_ok (loaded : Contact.t) (body : ContactBase.t) : bool :=
  set_ok (ContactBase.first_name body) (Contact.first_name loaded)
  && set_ok (ContactBase.last_name body) (Contact.last_name loaded)
  && set_ok (ContactBase.email body) (Contact.email loaded)
  && set_ok (ContactBase.phone_number body) (Contact.phone_number loaded).

(** [refresh] of the row [c] over a table, and the storage after a commit
    that leaves the contacts [cs]. *)
Definition reread (c : Contact.t) (rows : list Contact.t) : result (option Contact.t) :=
  match filter (fun r => Contact.id r =? Contact.id c) rows with
  | [r] => Ok (Some r)
  | _ => Raise InvalidRequestError
  end.

Definition committed (db : Database) (cs : list Contact.t) : Database :=
  mkDatabase cs (users db) (contacts_seq db) (S (commits db)).

(** Primary keys are unique, in both tables; addresses are unique. *)
Definition unique_ids (db : Database) : Prop :=
  NoDup (map Contact.id (contacts db)).

Definition unique_user_ids (db : Database) : Prop :=
  NoDup (map User.id (users db)).

Definition unique_emails (db : Database) : Prop :=
  NoDup (map User.email (users db)).

(** A stored row whose four text columns respect [String(50)]. *)
Definition row_fits (c : Contact.t) : bool :=
  fits50 (Contact.first_name c) && fits50 (Contact.last_name c)
  && fits50 (Contact.email c) && fits50 (Contact.phone_number c).

(** A value its [String(50)] column refuses: ASCII, longer than 50
    characters, the excess not made of blanks. *)
Fixpoint drop (n : nat) (s : string) : string :=
  match n, s with
  | O, _ => s
  | S n', String _ s' => drop n' s'
  | S _, EmptyString => EmptyString
  end.

Fixpoint blank (s : string) : bool :=
  match s with
  | EmptyString => true
  | String c s' => Ascii.eqb c " " && blank s'
  end.

Definition over_long (s : string) : bool :=
  negb (fits50 s) && Text.ascii_only s && negb (blank (drop 50 s)).

Definition has_over_long (b : ContactBase.t) : bool :=
  over_long (ContactBase.first_name b) || over_long (ContactBase.last_name b)
  || over_long (ContactBase.email b) || over_long (ContactBase.phone_number b).

(** A filter made of [%] signs only. *)
Fixpoint all_percent (s : string) : bool :=
  match s with
  | EmptyString => true
  | String c s' => Ascii.eqb c "%" && all_percent s'
  end.


(** A form the users table accepts, with the avatar found for it. *)
Definition form_fits (b : UserSchema.t) (avatar : option string) : bool :=
  fits 150 (UserSchema.username b) && fits 150 (UserSchema.email b)
  && fits 255 (UserSchema.password b) && fits_nullable 255 avatar.

Definition avatar_of (gravatar : string -> result string) (b : UserSchema.t)
    : option string :=
  match gravatar (UserSchema.email b) with
  | Ok url => Some url
  | Raise _ => None
  end.

(* ================================================================= *)
(** * Properties *)

Import Sample.

(** ** Patterns of the form [%x%] *)

Module TextFacts.
Import Text.

Lemma lower_append (a b : string) : lower (a ++ b) = lower a ++ lower b.
Proof.
  induction a as [|c a IH]; simpl; [reflexivity | now rewrite IH].
Qed.

Lemma lower_wrap (x : string) : lower (wrap x) = wrap (lower x).
Proof.
  unfold wrap. now rewrite !lower_append.
Qed.

Lemma is_meta_lower (c : ascii) : is_meta (lower_ascii c) = is_meta c.
Proof.
  destruct c as [[] [] [] [] [] [] [] []]; reflexivity.
Qed.

Lemma no_meta_lower (s : string) : no_meta (lower s) = no_meta s.
Proof.
  induction s as [|c s IH]; simpl; [reflexivity|].
  now rewrite is_meta_lower, IH.
Qed.

Lemma parse_cons (c : ascii) (p : string) :
  parse_pattern (String c p) =
  if Ascii.eqb c "%" then option_map (cons TAny) (parse_pattern p)
  else if Ascii.eqb c "_" then option_map (cons TOne) (parse_pattern p)
  else if Ascii.eqb c "\" then
    match p with
    | EmptyString => None
    | String d p' => option_map (cons (TLit d)) (parse_pattern p')
    end
  else option_map (cons (TLit c)) (parse_pattern p).
Proof. reflexivity. Qed.

Lemma option_map_some {A B} (f : A -> B) (o : option A) :
  o <> None -> option_map f o <> None.
Proof. destruct o; [discriminate | congruence]. Qed.

(** A pattern that ends in [%] never ends in a lone escape: the escape at
    worst protects that final [%]. *)
Lemma parse_percent_end (x : string) :
  parse_pattern (x ++ "%") <> None /\
  forall c, parse_pattern (String c x ++ "%") <> None.
Proof.
  induction x as [|d x [IH1 IH2]].
  - split; [discriminate|].
    intro c. change (String c "" ++ "%") with (String c "%").
    rewrite parse_cons.
    destruct (Ascii.eqb c "%"); [discriminate|].
    destruct (Ascii.eqb c "_"); [discriminate|].
    destruct (Ascii.eqb c "\"); discriminate.
  - split; [apply IH2|].
    intro c.
    change (String c (String d x) ++ "%") with (String c (String d (x ++ "%"))).
    specialize (IH2 d). change (String d x ++ "%") with (String d (x ++ "%")) in IH2.
    rewrite parse_cons.
    destruct (Ascii.eqb c "%"); [now apply option_map_some|].
    destruct (Ascii.eqb c "_"); [now apply option_map_some|].
    destruct (Ascii.eqb c "\"); now apply option_map_some.
Qed.

Lemma parse_wrap (x : string) : exists ts, parse_pattern (wrap x) = Some ts.
Proof.
  unfold wrap. change ("%" ++ x ++ "%") with (String "%" (x ++ "%")).
  cbn [parse_pattern]. rewrite Ascii.eqb_refl.
  destruct (parse_percent_end x) as [H _].
  destruct (parse_pattern (x ++ "%")) as [ts|]; [|congruence].
  now exists (TAny :: ts).
Qed.

(** [ILIKE '%x%'] always evaluates. *)
Lemma ilike_wrap_total (s x : string) : exists b, ilike s (wrap x) = Some b.
Proof.
  unfold ilike, like. rewrite lower_wrap.
  destruct (parse_wrap (lower x)) as [ts ->]. simpl. eauto.
Qed.

Lemma parse_no_meta (x : string) :
  no_meta x = true -> parse_pattern (x ++ "%") = Some (lits x ++ [TAny])%list.
Proof.
  induction x as [|c x IH]; simpl; [reflexivity|].
  intro H. apply andb_prop in H as [Hc Hx].
  unfold is_meta in Hc. apply negb_true_iff in Hc.
  apply orb_false_elim in Hc as [Hc Hbs].
  apply orb_false_elim in Hc as [Hpc Hus].
  rewrite Hpc, Hus, Hbs, (IH Hx). reflexivity.
Qed.

Lemma match_any_unfold (ts : list tok) (s : string) :
  match_toks (TAny :: ts) s =
  (match_toks ts s ||
   match s with
   | EmptyString => false
   | String _ s' => match_toks (TAny :: ts) s'
   end)%bool.
Proof.
  destruct s; reflexivity.
Qed.

Lemma match_any_end (s : string) : match_toks [TAny] s = true.
Proof.
  induction s as [|c s IH]; [reflexivity|].
  rewrite match_any_unfold. now rewrite IH, orb_true_r.
Qed.

Lemma match_lits_prefix (x s : string) :
  match_toks (lits x ++ [TAny])%list s = prefix x s.
Proof.
  revert s. induction x as [|c x IH]; intro s.
  - simpl lits. simpl app. rewrite match_any_end. now destruct s.
  - destruct s as [|d s]; [reflexivity|].
    simpl. rewrite IH.
    destruct (ascii_dec c d) as [->|Hne].
    + now rewrite Ascii.eqb_refl.
    + apply Ascii.eqb_neq in Hne. now rewrite Hne.
Qed.

Lemma match_any_lits_contains (x s : string) :
  match_toks (TAny :: lits x ++ [TAny])%list s = contains x s.
Proof.
  induction s as [|d s IH].
  - rewrite match_any_unfold, match_lits_prefix. reflexivity.
  - rewrite match_any_unfold, match_lits_prefix, IH. reflexivity.
Qed.

(** For a filter without [%], [_] and backslash, [ILIKE '%f%'] is the
    case-insensitive substring test. *)
Lemma ilike_wrap_no_meta (f s : string) :
  no_meta f = true -> ilike s (wrap f) = Some (substring_ci f s).
Proof.
  intro H. unfold ilike, like, substring_ci. rewrite lower_wrap.
  unfold wrap. change ("%" ++ lower f ++ "%") with (String "%" (lower f ++ "%")).
  cbn [parse_pattern]. rewrite Ascii.eqb_refl.
  rewrite parse_no_meta by now rewrite no_meta_lower.
  unfold option_map. f_equal. apply match_any_lits_contains.
Qed.

(** [contains] is the existence of a decomposition. *)
Lemma prefix_split (x s : string) :
  prefix x s = true <-> exists post, s = x ++ post.
Proof.
  revert s. induction x as [|c x IH]; intro s.
  - split; [intros _; now exists s | now destruct s].
  - destruct s as [|d s]; simpl.
    + split; [discriminate | intros [post H]; discriminate].
    + destruct (ascii_dec c d) as [->|Hne].
      * rewrite IH. split; intros [post H]; exists post.
        -- now rewrite H.
        -- now injection H.
      * split; [discriminate|]. intros [post H]. injection H as H1 H2. congruence.
Qed.

Lemma contains_split (x s : string) :
  contains x s = true <-> exists pre post, s = pre ++ x ++ post.
Proof.
  induction s as [|d s IH].
  - change (contains x "") with (prefix x "" || false)%bool.
    rewrite orb_false_r, prefix_split. split.
    + intros [post H]. now exists "", post.
    + intros [pre [post H]]. destruct pre; [now exists post | discriminate].
  - change (contains x (String d s))
      with (prefix x (String d s) || contains x s)%bool.
    rewrite orb_true_iff, IH, prefix_split. split.
    + intros [[post H] | [pre [post H]]].
      * now exists "", post.
      * exists (String d pre), post. simpl. now rewrite H.
    + intros [pre [post H]]. destruct pre as [|e pre].
      * left. now exists post.
      * right. exists pre, post. simpl in H. now injection H.
Qed.

End TextFacts.

(** ** Running statements *)

Section ExecuteFacts.
Context {R : Type} `{Mapped R}.

Lemma decided_by_app (ps : list (R -> result bool)) fs p f :
  decided_by ps fs -> (forall r, p r = Ok (f r)) ->
  decided_by (ps ++ [p]) (fs ++ [f]).
Proof.
  intros Hps Hp. apply Forall2_app; [exact Hps | now constructor].
Qed.

Lemma where_holds_decided (ps : list (R -> result bool)) fs r :
  decided_by ps fs -> where_holds ps r = Ok (all_hold fs r).
Proof.
  induction 1 as [|p f ps fs Hp _ IH]; simpl; [reflexivity|].
  rewrite Hp. destruct (f r); [exact IH | reflexivity].
Qed.

Lemma where_rows_decided (ps : list (R -> result bool)) fs rows :
  decided_by ps fs -> where_rows ps rows = Ok (filter (all_hold fs) rows).
Proof.
  intro Hd. induction rows as [|r rows IH]; simpl; [reflexivity|].
  rewrite (where_holds_decided _ _ r Hd), IH. reflexivity.
Qed.

Lemma execute_down env (q : select R) db :
  storage_up env = false -> execute env q db = (Raise OperationalError, db).
Proof.
  intro Hs. unfold execute. now rewrite Hs.
Qed.

Lemma execute_up env (q : select R) fs db :
  storage_up env = true ->
  decided_by (whereclause q) fs ->
  execute env q db =
  (if parameters_ok q
   then if (negative (offset_clause q) || negative (limit_clause q))%bool
        then Raise DataError
        else Ok (page (offset_clause q) (limit_clause q)
                   (filter (all_hold fs) (table db)))
   else Raise DBAPIError,
   db).
Proof.
  intros Hs Hd. unfold execute. rewrite Hs. simpl negb. cbv iota.
  destruct (parameters_ok q); [|reflexivity]. simpl negb. cbv iota.
  destruct (negative (offset_clause q) || negative (limit_clause q))%bool;
    [reflexivity|].
  now rewrite (where_rows_decided _ _ _ Hd).
Qed.

(** Reading never writes. *)
Lemma execute_frame env (q : select R) db : snd (execute env q db) = db.
Proof.
  unfold execute.
  destruct (negb (storage_up env)); [reflexivity|].
  destruct (negb (parameters_ok q)); [reflexivity|].
  destruct (negative (offset_clause q) || negative (limit_clause q))%bool;
    [reflexivity|].
  now destruct (where_rows (whereclause q) (table db)).
Qed.

End ExecuteFacts.

Section Lookup.
Variables (env : Env) (user : User.t) (contact_id : Z).

Lemma lookup_parameters :
  parameters_ok (lookup_stmt user contact_id) = in_int32 contact_id.
Proof.
  unfold parameters_ok, lookup_stmt. simpl. now rewrite !andb_true_r.
Qed.

Lemma lookup_rows db :
  execute env (lookup_stmt user contact_id) db =
  (if storage_up env
   then if in_int32 contact_id
        then Ok (filter (is_target user contact_id) (contacts db))
        else Raise DBAPIError
   else Raise OperationalError, db).
Proof.
  destruct (storage_up env) eqn:Hs.
  - rewrite (execute_up env (lookup_stmt user contact_id)
               [fun c => Contact.id c =? contact_id; Spec.owned user] db Hs)
      by (unfold lookup_stmt; simpl; decide_where).
    rewrite lookup_parameters. destruct (in_int32 contact_id); [|reflexivity].
    simpl. f_equal. f_equal. apply filter_ext. intro c.
    unfold all_hold, is_target. simpl. now rewrite andb_true_r.
  - now apply execute_down.
Qed.

Lemma is_target_spec c :
  is_target user contact_id c = true <->
  Contact.id c = contact_id /\ Contact.user_id c = Some (User.id user).
Proof.
  unfold is_target, Spec.owned. rewrite andb_true_iff, Z.eqb_eq.
  destruct (Contact.user_id c) as [u|].
  - rewrite Z.eqb_eq. split; intros [H1 H2]; split; congruence.
  - split; intros [H1 H2]; discriminate.
Qed.

Lemma not_owned_no_rows db :
  not_owned user contact_id db ->
  filter (is_target user contact_id) (contacts db) = [].
Proof.
  intro Hn. unfold not_owned in Hn.
  induction (contacts db) as [|c cs IH]; [reflexivity|].
  simpl. destruct (is_target user contact_id c) eqn:Hc.
  - exfalso. apply (Hn c); [now left | now apply is_target_spec].
  - apply IH. intros c' Hin. apply Hn. now right.
Qed.

End Lookup.

(** ** Owner scoping of lookups by id *)

Section NotOwned.
Variables (env : Env) (user : User.t) (contact_id : Z) (db : Database).
Hypothesis Hnot : not_owned user contact_id db.

Lemma get_contact_not_owned :
  repository_contacts.get_contact env contact_id user db
  = (lookup_miss env contact_id, db).
Proof.
  unfold repository_contacts.get_contact, bind, lookup_miss.
  fold (lookup_stmt user contact_id). rewrite lookup_rows.
  rewrite (not_owned_no_rows _ _ _ Hnot).
  now destruct (storage_up env), (in_int32 contact_id).
Qed.

Lemma update_contact_not_owned body :
  repository_contacts.update_contact env contact_id body user db
  = (lookup_miss env contact_id, db).
Proof.
  unfold repository_contacts.update_contact, bind, lookup_miss.
  fold (lookup_stmt user contact_id). rewrite lookup_rows.
  rewrite (not_owned_no_rows _ _ _ Hnot).
  now destruct (storage_up env), (in_int32 contact_id).
Qed.

Lemma delete_contact_not_owned :
  repository_contacts.delete_contact env contact_id user db
  = (lookup_miss env contact_id, db).
Proof.
  unfold repository_contacts.delete_contact, bind, lookup_miss.
  fold (lookup_stmt user contact_id). rewrite lookup_rows.
  rewrite (not_owned_no_rows _ _ _ Hnot).
  now destruct (storage_up env), (in_int32 contact_id).
Qed.

End NotOwned.

(** C1 as stated fails: no contact has the id 2147483648, which does not
    fit a 32-bit parameter, and alice's lookup of it raises instead of
    answering [None]. *)
Lemma id_beyond_integer_is_not_none :
  not_owned alice 2147483648 db0 /\
  repository_contacts.get_contact (up t1) 2147483648 alice db0
    = (Raise DBAPIError, db0) /\
  ~ not_owned_gives_none (up t1) alice 2147483648 body_jon db0.
Proof.
  assert (Hnot : not_owned alice 2147483648 db0).
  { intros c Hin [Hid _]. simpl in Hin.
    destruct Hin as [<-|[<-|[<-|[]]]]; discriminate. }
  split; [exact Hnot|]. split; [reflexivity|].
  intro H. destruct (H Hnot) as [Hget _]. discriminate Hget.
Qed.

(** C1, amended. When no row has both the requested id and the caller as
    owner, [get_contact], [update_contact] and [delete_contact] end alike
    and leave every row as it was, whether or not the id exists under
    another owner: they answer [None] for an id that fits a 32-bit
    [Integer] parameter, and raise the driver's error for an id that does
    not (the connection error when the storage is unreachable).  None of
    them returns a contact. *)
Theorem not_owned_is_not_found (env : Env) (user : User.t) (contact_id : Z)
    (body : ContactBase.t) (db : Database) :
  not_owned user contact_id db ->
  let outcome :=
    if storage_up env
    then if in_int32 contact_id then Ok None else Raise DBAPIError
    else Raise OperationalError in
  repository_contacts.get_contact env contact_id user db = (outcome, db) /\
  repository_contacts.update_contact env contact_id body user db = (outcome, db) /\
  repository_contacts.delete_contact env contact_id user db = (outcome, db).
Proof.
  intros Hnot outcome. repeat split.
  - now apply get_contact_not_owned.
  - now apply update_contact_not_owned.
  - now apply delete_contact_not_owned.
Qed.

Lemma carl_not_owned_by_alice : not_owned alice 3 db0.
Proof.
  intros c Hin [Hid Howner]. simpl in Hin.
  destruct Hin as [<-|[<-|[<-|[]]]]; discriminate.
Defined.

(** Contact 3 exists, under bob; alice gets [None] from all three and the
    storage is untouched. *)
Lemma not_owned_is_not_found_witness :
  In carl (contacts db0) /\ Contact.id carl = 3 /\
  repository_contacts.get_contact (up t1) 3 alice db0 = (Ok None, db0) /\
  repository_contacts.update_contact (up t1) 3 body_jon alice db0 = (Ok None, db0) /\
  repository_contacts.delete_contact (up t1) 3 alice db0 = (Ok None, db0).
Proof.
  split; [simpl; tauto|]. split; [reflexivity|].
  exact (not_owned_is_not_found (up t1) alice 3 body_jon db0 carl_not_owned_by_alice).
Defined.

(** C10 as stated fails: bob has no contact with the id 4294967296, and
    neither writer returns the sentinel for it: both raise. *)
Lemma writers_raise_beyond_integer :
  not_owned bob 4294967296 db0 /\
  repository_contacts.update_contact (up t2) 4294967296 body_john bob db0
    = (Raise DBAPIError, db0) /\
  repository_contacts.delete_contact (up t2) 4294967296 bob db0
    = (Raise DBAPIError, db0) /\
  ~ miss_is_silent (up t2) bob 4294967296 body_john db0.
Proof.
  assert (Hnot : not_owned bob 4294967296 db0).
  { intros c Hin [Hid _]. simpl in Hin.
    destruct Hin as [<-|[<-|[<-|[]]]]; discriminate. }
  split; [exact Hnot|]. split; [reflexivity|]. split; [reflexivity|].
  intro H. destruct (H Hnot) as [Hupd _]. discriminate Hupd.
Qed.

(** C10, amended. When the id matches no contact of the caller,
    [update_contact] and [delete_contact] leave the storage exactly as it
    was (same rows, same sequence, no further commit); on a reachable
    storage they answer [None] for an id that fits a 32-bit [Integer]
    parameter and raise the driver's error for one that does not. *)
Theorem not_found_changes_nothing (env : Env) (user : User.t) (contact_id : Z)
    (body : ContactBase.t) (db : Database) :
  not_owned user contact_id db ->
  let upd := repository_contacts.update_contact env contact_id body user db in
  let del := repository_contacts.delete_contact env contact_id user db in
  snd upd = db /\ snd del = db /\
  commits (snd upd) = commits db /\ commits (snd del) = commits db /\
  (storage_up env = true -> in_int32 contact_id = true ->
   fst upd = Ok None /\ fst del = Ok None) /\
  (storage_up env = true -> in_int32 contact_id = false ->
   fst upd = Raise DBAPIError /\ fst del = Raise DBAPIError).
Proof.
  intros Hnot upd del. subst upd del.
  rewrite (update_contact_not_owned env user contact_id db Hnot body).
  rewrite (delete_contact_not_owned env user contact_id db Hnot).
  unfold lookup_miss. simpl.
  split; [reflexivity|]. split; [reflexivity|].
  split; [reflexivity|]. split; [reflexivity|].
  split; intros Hs Hid; rewrite Hs, Hid; split; reflexivity.
Qed.

Lemma lost_id_not_owned_by_bob : not_owned bob 99 db0.
Proof.
  intros c Hin [Hid Howner]. simpl in Hin.
  destruct Hin as [<-|[<-|[<-|[]]]]; discriminate.
Defined.

Lemma not_found_changes_nothing_witness :
  snd (repository_contacts.update_contact (up t2) 99 body_john bob db0) = db0 /\
  snd (repository_contacts.delete_contact (up t2) 99 bob db0) = db0 /\
  fst (repository_contacts.update_contact (up t2) 99 body_john bob db0) = Ok None /\
  fst (repository_contacts.delete_contact (up t2) 99 bob db0) = Ok None.
Proof.
  destruct (not_found_changes_nothing (up t2) bob 99 body_john db0
              lost_id_not_owned_by_bob) as [Hu [Hd [_ [_ [Hnone _]]]]].
  destruct (Hnone eq_refl eq_refl) as [Hun Hdn].
  repeat split; assumption.
Defined.

(** ** Creating a contact *)

Lemma existsb_false_filter {A} (f : A -> bool) (l : list A) :
  existsb f l = false -> filter f l = [].
Proof.
  induction l as [|a l IH]; simpl; [reflexivity|].
  intro H. apply orb_false_elim in H as [Ha Hl].
  rewrite Ha. now apply IH.
Qed.

Lemma refresh_rows (env : Env) (pk : Z) (db : Database) :
  storage_up env = true ->
  refresh env pk db =
  (match filter (fun c => Contact.id c =? pk) (contacts db) with
   | [r] => Ok r
   | _ => Raise InvalidRequestError
   end, db).
Proof.
  intro Hs. unfold refresh, bind.
  rewrite (execute_up env _ [fun c => Contact.id c =? pk] db Hs)
    by (simpl; decide_where).
  unfold table, Mapped_Contact. simpl.
  replace (filter (all_hold [fun c => Contact.id c =? pk]) (contacts db))
    with (filter (fun c => Contact.id c =? pk) (contacts db))
    by (apply filter_ext; intro c; unfold all_hold; simpl; now rewrite andb_true_r).
  destruct (filter (fun c => Contact.id c =? pk) (contacts db)) as [|r [|r' rs]];
    reflexivity.
Qed.

Section Create.
Variables (env : Env) (body : ContactBase.t) (user : User.t) (db : Database).

(** [create] either persists and returns [new_row], or raises the 500
    exception and leaves the storage alone. *)
Lemma create_eq :
  repository_contacts.create env body user db =
  if insertable env body user db
  then (Ok (new_row env body user db), after_insert env body user db)
  else (Raise (HTTPException 500 "Internal Server Error"), db).
Proof.
  unfold repository_contacts.create, try_except, bind, commit, insertable.
  destruct (storage_up env) eqn:Hs; [|reflexivity].
  simpl negb. cbv iota. unfold flush, Spec.fits_columns.
  destruct (fits50 (ContactBase.first_name body) && fits50 (ContactBase.last_name body)
            && fits50 (ContactBase.email body) && fits50 (ContactBase.phone_number body));
    [|reflexivity].
  destruct (existsb (fun x => User.id x =? User.id user) (users db)); [|reflexivity].
  destruct (existsb (fun r => Contact.id r =? contacts_seq db) (contacts db)) eqn:Hpk;
    [reflexivity|].
  simpl. rewrite (refresh_rows env _ _ Hs). simpl contacts.
  rewrite filter_app, (existsb_false_filter _ _ Hpk). simpl.
  rewrite Z.eqb_refl. reflexivity.
Qed.

Lemma seq_fresh_no_collision :
  Spec.seq_fresh db ->
  existsb (fun r => Contact.id r =? contacts_seq db) (contacts db) = false.
Proof.
  intro Hf. destruct (existsb _ (contacts db)) eqn:He; [|reflexivity].
  apply existsb_exists in He as [r [Hin Hr]].
  apply Z.eqb_eq in Hr. specialize (Hf r Hin). lia.
Qed.

Lemma user_row_exists :
  In user (users db) ->
  existsb (fun x => User.id x =? User.id user) (users db) = true.
Proof.
  intro Hin. apply existsb_exists. exists user. split; [exact Hin | apply Z.eqb_refl].
Qed.

End Create.

(** C2. Whenever [create] returns a record, that record is owned by the
    calling user, and it is among the stored rows; and [create] does return
    one whenever the storage is reachable, the body fits the columns, the
    user has a row and the id sequence is ahead of the stored ids. *)
Theorem create_sets_owner (env : Env) (body : ContactBase.t) (user : User.t)
    (db : Database) :
  (forall c db',
     repository_contacts.create env body user db = (Ok c, db') ->
     Contact.user_id c = Some (User.id user) /\ In c (contacts db')) /\
  (storage_up env = true -> Spec.fits_columns body = true ->
   In user (users db) -> Spec.seq_fresh db ->
   exists c db', repository_contacts.create env body user db = (Ok c, db')).
Proof.
  rewrite create_eq. split.
  - intros c db'. destruct (insertable env body user db); [|discriminate].
    intro H. injection H as <- <-. split; [reflexivity|].
    simpl. apply in_or_app. right. now left.
  - intros Hs Hfit Hu Hf. unfold insertable.
    rewrite Hs, Hfit, (user_row_exists user db Hu), (seq_fresh_no_collision db Hf).
    simpl. eauto.
Qed.

Lemma db0_seq_fresh : Spec.seq_fresh db0.
Proof.
  intros c Hin. simpl in Hin.
  destruct Hin as [<-|[<-|[<-|[]]]]; reflexivity.
Defined.

Lemma create_sets_owner_witness :
  exists c db',
    repository_contacts.create (up t1) body_john bob db0 = (Ok c, db') /\
    Contact.user_id c = Some 2.
Proof.
  destruct (create_sets_owner (up t1) body_john bob db0) as [Howner Hruns].
  destruct (Hruns eq_refl eq_refl (or_intror (or_introl eq_refl)) db0_seq_fresh)
    as [c [db' Hc]].
  exists c, db'. split; [exact Hc | exact (proj1 (Howner c db' Hc))].
Defined.

(** ** The status code of [POST /contacts] *)

Lemma create_contact_eq (env : Env) (body : ContactBase.t) (user : User.t)
    (db : Database) :
  routes_contacts.create_contact env body user db =
  if insertable env body user db
  then (routes_contacts.JSONResponse 201
          (routes_contacts.to_ContactInDB (new_row env body user db)),
        after_insert env body user db)
  else (routes_contacts.ErrorResponse 404 "NOT FOUND", db).
Proof.
  unfold routes_contacts.create_contact, routes_contacts.respond, try_except.
  rewrite create_eq. now destruct (insertable env body user db).
Qed.

(** On every input the repository raises nothing but its 500 exception, and
    the handler turns exactly that into a 404; a persisted record is sent
    with 201, its id taken from the sequence. *)
Lemma create_contact_status (env : Env) (body : ContactBase.t) (user : User.t)
    (db : Database) :
  match repository_contacts.create env body user db with
  | (Ok c, db') =>
      routes_contacts.create_contact env body user db
        = (routes_contacts.JSONResponse 201 (routes_contacts.to_ContactInDB c), db') /\
      ContactInDB.id (routes_contacts.to_ContactInDB c) = contacts_seq db
  | (Raise e, db') =>
      e = HTTPException 500 "Internal Server Error" /\ db' = db /\
      routes_contacts.create_contact env body user db
        = (routes_contacts.ErrorResponse 404 "NOT FOUND", db)
  end.
Proof.
  rewrite create_contact_eq, create_eq.
  destruct (insertable env body user db); repeat split; reflexivity.
Qed.

(** C6. A first name of 55 characters passes the request schema and
    violates [String(50)]: the repository raises its
    [HTTPException(500)], yet the caller of [POST /contacts] receives 404
    "NOT FOUND", as it does when the storage is unreachable; nothing is
    stored.  A body that fits is answered with 201 and the new id. *)
Theorem create_contact_failure_is_404 :
  Spec.fits_columns body_long = false /\
  repository_contacts.create (up t1) body_long alice db0
    = (Raise (HTTPException 500 "Internal Server Error"), db0) /\
  routes_contacts.create_contact (up t1) body_long alice db0
    = (routes_contacts.ErrorResponse 404 "NOT FOUND", db0) /\
  routes_contacts.create_contact (down t1) body_john alice db0
    = (routes_contacts.ErrorResponse 404 "NOT FOUND", db0) /\
  routes_contacts.status_of
    (fst (routes_contacts.create_contact (up t1) body_john alice db0)) = 201.
Proof.
  repeat split; reflexivity.
Qed.

(** ** Birthdays *)

Lemma get_birthdays_eq (env : Env) (days : Z) (user : User.t) (db : Database) :
  repository_contacts.get_birthdays env days user db =
  (if storage_up env
   then if in_int32 (day (today env) + days + 1)
        then Ok (Spec.birthdaysWithin env days user db)
        else Raise DBAPIError
   else Raise OperationalError, db).
Proof.
  unfold repository_contacts.get_birthdays.
  destruct (storage_up env) eqn:Hs; [|now apply execute_down].
  rewrite (execute_up env _
             [Spec.owned user;
              fun c => match Contact.birthday c with
                       | Some t => month (dt_date t) =? month (today env)
                       | None => false
                       end;
              fun c => match Contact.birthday c with
                       | Some t => day (dt_date t) <=? day (today env) + (days + 1)
                       | None => false
                       end] db Hs)
    by (simpl; decide_where).
  unfold parameters_ok. simpl. rewrite !andb_true_r, Z.add_assoc.
  destruct (in_int32 (day (today env) + days + 1)); [|reflexivity].
  unfold Spec.birthdaysWithin. do 2 f_equal.
  apply filter_ext. intro c.
  unfold all_hold, Spec.birthday_within. simpl.
  destruct (Contact.birthday c) as [b|].
  - now rewrite andb_true_r.
  - now rewrite !andb_false_r.
Qed.

Lemma birthday_within_spec (env : Env) (days : Z) (c : Contact.t) :
  Spec.birthday_within env days c = true <->
  exists b, Contact.birthday c = Some b /\
            month (dt_date b) = month (today env) /\
            day (dt_date b) <= day (today env) + days + 1.
Proof.
  unfold Spec.birthday_within. destruct (Contact.birthday c) as [b|].
  - rewrite andb_true_iff, Z.eqb_eq, Z.leb_le. split.
    + intros [Hm Hd]. now exists b.
    + intros [b' [Hb [Hm Hd]]]. injection Hb as <-. now split.
  - split; [discriminate | intros [b [Hb _]]; discriminate].
Qed.

Lemma owned_spec (user : User.t) (c : Contact.t) :
  Spec.owned user c = true <-> Contact.user_id c = Some (User.id user).
Proof.
  unfold Spec.owned. destruct (Contact.user_id c) as [u|].
  - rewrite Z.eqb_eq. split; congruence.
  - split; discriminate.
Qed.

(** C3 as stated fails for a large [days]: with [days = 2147483648] the
    day bound does not fit a 32-bit parameter and the call raises instead
    of returning the list. *)
Lemma get_birthdays_raises_beyond_integer :
  repository_contacts.get_birthdays (up t1) 2147483648 alice db0
    = (Raise DBAPIError, db0) /\
  ~ Spec.returns_window (up t1) 2147483648 alice db0.
Proof.
  split; [reflexivity|]. unfold Spec.returns_window. discriminate.
Qed.

(** C3, amended. Whenever the day bound (current day-of-month + days + 1)
    fits a 32-bit [Integer] parameter, [get_birthdays] returns exactly the
    caller's contacts whose birthday month is the current month and whose
    birthday day-of-month is at most that bound; beyond that it raises the
    driver's error.  The year of birth plays no part, and a birthday in any
    other month, the next one included, is never returned. *)
Theorem get_birthdays_day_of_month_window (env : Env) (days : Z) (user : User.t)
    (db : Database) :
  repository_contacts.get_birthdays env days user db
    = (if storage_up env
       then if in_int32 (day (today env) + days + 1)
            then Ok (Spec.birthdaysWithin env days user db)
            else Raise DBAPIError
       else Raise OperationalError, db) /\
  (forall c,
     In c (Spec.birthdaysWithin env days user db) <->
     In c (contacts db) /\
     Contact.user_id c = Some (User.id user) /\
     exists b, Contact.birthday c = Some b /\
               month (dt_date b) = month (today env) /\
               day (dt_date b) <= day (today env) + days + 1) /\
  (forall y c,
     Spec.birthday_within env days (Spec.born_in_year y c)
       = Spec.birthday_within env days c) /\
  (forall c b,
     Contact.birthday c = Some b ->
     month (dt_date b) <> month (today env) ->
     ~ In c (Spec.birthdaysWithin env days user db)).
Proof.
  split; [apply get_birthdays_eq|]. split; [|split].
  - intro c. unfold Spec.birthdaysWithin.
    rewrite filter_In, andb_true_iff, owned_spec, birthday_within_spec. tauto.
  - intros y c. unfold Spec.birthday_within, Spec.born_in_year. simpl.
    now destruct (Contact.birthday c).
  - intros c b Hb Hm Hin. unfold Spec.birthdaysWithin in Hin.
    apply filter_In in Hin as [_ Hin]. apply andb_prop in Hin as [_ Hin].
    apply birthday_within_spec in Hin as [b' [Hb' [Hm' _]]]. congruence.
Qed.

(** On 30 May with [days = 7], jane's birthday on 2 June is three days
    away and is missed; john's on 31 May is found. *)
Lemma get_birthdays_day_of_month_window_witness :
  fst (repository_contacts.get_birthdays (up t1) 7 alice db0) = Ok [john] /\
  ~ In jane (Spec.birthdaysWithin (up t1) 7 alice db0).
Proof.
  destruct (get_birthdays_day_of_month_window (up t1) 7 alice db0)
    as [Heq [_ [_ Hmonth]]].
  split.
  - rewrite Heq. reflexivity.
  - apply (Hmonth jane (midnight (mkDate 1985 6 2)) eq_refl). discriminate.
Defined.

(** ** Searching *)

Section Pointwise.
Context {R : Type} `{Mapped R}.

Lemma where_holds_app (ps qs : list (R -> result bool)) (r : R) :
  where_holds (ps ++ qs) r =
  match where_holds ps r with
  | Ok true => where_holds qs r
  | Ok false => Ok false
  | Raise e => Raise e
  end.
Proof.
  induction ps as [|p ps IH]; simpl; [now destruct (where_holds qs r) as [[]|]|].
  destruct (p r) as [[]|]; [exact IH | reflexivity | reflexivity].
Qed.

Lemma where_rows_pointwise (ps : list (R -> result bool)) (f : R -> bool) rows :
  (forall r, where_holds ps r = Ok (f r)) ->
  where_rows ps rows = Ok (filter f rows).
Proof.
  intro Hf. induction rows as [|r rows IH]; simpl; [reflexivity|].
  now rewrite Hf, IH.
Qed.

Lemma execute_up_pointwise env (q : select R) (f : R -> bool) db :
  storage_up env = true ->
  (forall r, where_holds (whereclause q) r = Ok (f r)) ->
  execute env q db =
  (if parameters_ok q
   then if negative (offset_clause q) || negative (limit_clause q)
        then Raise DataError
        else Ok (page (offset_clause q) (limit_clause q) (filter f (table db)))
   else Raise DBAPIError,
   db).
Proof.
  intros Hs Hf. unfold execute. rewrite Hs. simpl negb. cbv iota.
  destruct (parameters_ok q); [|reflexivity]. simpl negb. cbv iota.
  destruct (negative (offset_clause q) || negative (limit_clause q));
    [reflexivity|].
  now rewrite (where_rows_pointwise _ _ _ Hf).
Qed.

(** One conditional [query = query.filter(...)] step. *)
Lemma where_holds_optional (q : select R) (supplied : bool)
    (p : R -> result bool) (f g : R -> bool) :
  (forall r, where_holds (whereclause q) r = Ok (f r)) ->
  (forall r, p r = Ok (g r)) ->
  forall r,
    where_holds (whereclause (if supplied then filter_ p q else q)) r
    = Ok (f r && (if supplied then g r else true)).
Proof.
  intros Hf Hg r. destruct supplied.
  - simpl. rewrite where_holds_app, Hf. simpl. rewrite Hg.
    destruct (f r), (g r); reflexivity.
  - now rewrite Hf, andb_true_r.
Qed.

Lemma In_page (off lim : option Z) (rows : list R) (r : R) :
  In r (page off lim rows) -> In r rows.
Proof.
  unfold page. intro Hin.
  assert (Hskip : In r match off with
                       | Some n => skipn (Z.to_nat n) rows
                       | None => rows
                       end).
  { destruct lim as [n|]; [|exact Hin].
    rewrite <- (firstn_skipn (Z.to_nat n)). apply in_or_app. now left. }
  destruct off as [n|]; [|exact Hskip].
  rewrite <- (firstn_skipn (Z.to_nat n) rows). apply in_or_app. now right.
Qed.

End Pointwise.

Lemma col_ilike_wrap (col : Contact.t -> string) (f : option string) (c : Contact.t) :
  col_ilike col (Text.wrap (text_of f)) c
  = Ok match Text.ilike (col c) (Text.wrap (text_of f)) with
       | Some b => b
       | None => false
       end.
Proof.
  unfold col_ilike.
  destruct (TextFacts.ilike_wrap_total (col c) (text_of f)) as [b ->]. reflexivity.
Qed.

Section Search.
Variables (env : Env) (first_name last_name email : option string).
Variables (skip limit : Z) (user : User.t).

Lemma search_query_where (c : Contact.t) :
  where_holds
    (whereclause
       (repository_contacts.search_query first_name last_name email skip limit user)) c
  = Ok (Spec.search_selects first_name last_name email user c).
Proof.
  unfold repository_contacts.search_query, Spec.search_selects, Spec.ilike_filter.
  cbn [offset_ limit_ whereclause].
  revert c.
  apply (where_holds_optional _ (truthy email) _ _
           (fun c => match Text.ilike (Contact.email c) (Text.wrap (text_of email)) with
                     | Some b => b | None => false end));
    [|apply col_ilike_wrap].
  apply (where_holds_optional _ (truthy last_name) _ _
           (fun c => match Text.ilike (Contact.last_name c) (Text.wrap (text_of last_name)) with
                     | Some b => b | None => false end));
    [|apply col_ilike_wrap].
  apply (where_holds_optional _ (truthy first_name) _ _
           (fun c => match Text.ilike (Contact.first_name c) (Text.wrap (text_of first_name)) with
                     | Some b => b | None => false end));
    [|apply col_ilike_wrap].
  intro c. simpl. unfold repository_contacts.by_owner, col_eq_nullable, Spec.owned.
  now destruct (Contact.user_id c) as [u|]; [destruct (u =? User.id user)|].
Qed.

Lemma search_query_paging :
  offset_clause (repository_contacts.search_query first_name last_name email skip limit user)
    = Some skip /\
  limit_clause (repository_contacts.search_query first_name last_name email skip limit user)
    = Some limit /\
  parameters_ok (repository_contacts.search_query first_name last_name email skip limit user)
    = in_int32 skip && in_int32 limit.
Proof.
  unfold repository_contacts.search_query, parameters_ok.
  destruct (truthy first_name), (truthy last_name), (truthy email);
    repeat split; reflexivity.
Qed.

(** The statement of [search] as one equation. *)
Lemma execute_search_query (db : Database) :
  execute env
    (repository_contacts.search_query first_name last_name email skip limit user) db =
  (if storage_up env
   then if in_int32 skip && in_int32 limit
        then if (skip <? 0) || (limit <? 0) then Raise DataError
             else Ok (page (Some skip) (Some limit)
                        (filter (Spec.search_selects first_name last_name email user)
                           (contacts db)))
        else Raise DBAPIError
   else Raise OperationalError, db).
Proof.
  destruct (storage_up env) eqn:Hs; [|now apply execute_down].
  rewrite (execute_up_pointwise env _ _ db Hs search_query_where).
  destruct search_query_paging as [-> [-> ->]]. reflexivity.
Qed.

Lemma search_eq (db : Database) :
  repository_contacts.search env first_name last_name email skip limit user db =
  (if storage_up env && accepted_paging skip limit
   then Ok (page (Some skip) (Some limit)
              (filter (Spec.search_selects first_name last_name email user)
                 (contacts db)))
   else Ok [], db).
Proof.
  unfold repository_contacts.search, try_except, accepted_paging.
  rewrite execute_search_query.
  destruct (storage_up env); [|reflexivity].
  destruct (in_int32 skip && in_int32 limit); [|reflexivity].
  now destruct ((skip <? 0) || (limit <? 0)).
Qed.

End Search.

Lemma get_contacts_eq (env : Env) (limit offset : Z) (user : User.t) (db : Database) :
  repository_contacts.get_contacts env limit offset user db =
  (if storage_up env
   then if in_int32 offset && in_int32 limit
        then if (offset <? 0) || (limit <? 0) then Raise DataError
             else Ok (page (Some offset) (Some limit)
                        (filter (Spec.owned user) (contacts db)))
        else Raise DBAPIError
   else Raise OperationalError, db).
Proof.
  unfold repository_contacts.get_contacts.
  destruct (storage_up env) eqn:Hs; [|now apply execute_down].
  rewrite (execute_up env _ [Spec.owned user] db Hs) by (simpl; decide_where).
  unfold parameters_ok. simpl.
  destruct (in_int32 offset && in_int32 limit); [|reflexivity].
  destruct ((offset <? 0) || (limit <? 0)); [reflexivity|].
  unfold page. do 4 f_equal. apply filter_ext. intro c. unfold all_hold. simpl.
  now rewrite andb_true_r.
Qed.

(** Non-negative integers up to the largest 32-bit value are accepted. *)
Lemma accepted_paging_range (offset limit : Z) :
  0 <= offset <= max_int32 -> 0 <= limit <= max_int32 ->
  in_int32 offset && in_int32 limit = true /\
  (offset <? 0) || (limit <? 0) = false /\
  accepted_paging offset limit = true.
Proof.
  intros [Ho1 Ho2] [Hl1 Hl2].
  assert (Hin : in_int32 offset && in_int32 limit = true).
  { unfold in_int32, max_int32 in *.
    apply andb_true_intro; split; apply andb_true_intro; split;
      apply Z.leb_le; lia. }
  assert (Hneg : (offset <? 0) || (limit <? 0) = false).
  { apply Z.ltb_ge in Ho1, Hl1. now rewrite Ho1, Hl1. }
  unfold accepted_paging. now rewrite Hin, Hneg.
Qed.

Lemma absent_filter (f : option string) (field : string) :
  truthy f = false -> Spec.ilike_filter f field = true.
Proof.
  intro H. unfold Spec.ilike_filter. now rewrite H.
Qed.

Lemma search_selects_absent (first_name last_name email : option string)
    (user : User.t) (c : Contact.t) :
  truthy first_name = false -> truthy last_name = false -> truthy email = false ->
  Spec.search_selects first_name last_name email user c = Spec.owned user c.
Proof.
  intros H1 H2 H3. unfold Spec.search_selects.
  rewrite !absent_filter by assumption. now rewrite !andb_true_r.
Qed.

(** C4 as stated fails: with [skip = -1] and no filter, [get_contacts]
    raises the storage's error while [search] answers the empty list. *)
Lemma negative_skip_tells_them_apart :
  repository_contacts.search (up t1) None None None (-1) 10 alice db0 = (Ok [], db0) /\
  repository_contacts.get_contacts (up t1) 10 (-1) alice db0 = (Raise DataError, db0) /\
  ~ Spec.same_result_set (up t1) None None None (-1) 10 alice db0.
Proof.
  split; [reflexivity|]. split; [reflexivity|].
  unfold Spec.same_result_set. discriminate.
Qed.

(** C4, amended. With the three filters absent ([None] or empty), [search]
    returns exactly the rows [get_contacts] returns for the same user, limit
    and offset, whenever [get_contacts] returns at all, which it does on a
    reachable storage for a skip and a limit from 0 to the largest 32-bit
    integer; where [get_contacts] raises, [search] answers the empty
    list. *)
Theorem search_without_filters_is_get_contacts (env : Env)
    (first_name last_name email : option string) (skip limit : Z)
    (user : User.t) (db : Database) :
  truthy first_name = false -> truthy last_name = false -> truthy email = false ->
  (forall rows,
     fst (repository_contacts.get_contacts env limit skip user db) = Ok rows ->
     repository_contacts.search env first_name last_name email skip limit user db
       = (Ok rows, db)) /\
  (forall e,
     fst (repository_contacts.get_contacts env limit skip user db) = Raise e ->
     repository_contacts.search env first_name last_name email skip limit user db
       = (Ok [], db)) /\
  (storage_up env = true -> 0 <= skip <= max_int32 -> 0 <= limit <= max_int32 ->
   exists rows,
     repository_contacts.get_contacts env limit skip user db = (Ok rows, db) /\
     repository_contacts.search env first_name last_name email skip limit user db
       = (Ok rows, db)).
Proof.
  intros H1 H2 H3. rewrite search_eq, get_contacts_eq. unfold accepted_paging.
  rewrite (filter_ext _ _ (fun c => search_selects_absent _ _ _ user c H1 H2 H3)).
  repeat split.
  - intro rows. destruct (storage_up env); [|discriminate]. simpl.
    destruct (in_int32 skip && in_int32 limit); [|discriminate].
    destruct ((skip <? 0) || (limit <? 0)); [discriminate|].
    simpl. intro H. now injection H as <-.
  - intro e. destruct (storage_up env); [|reflexivity]. simpl.
    destruct (in_int32 skip && in_int32 limit); [|reflexivity].
    destruct ((skip <? 0) || (limit <? 0)); [reflexivity | discriminate].
  - intros Hs Hskip Hlimit. rewrite Hs.
    destruct (accepted_paging_range skip limit Hskip Hlimit) as [-> [-> _]].
    eexists. split; reflexivity.
Qed.

Lemma search_without_filters_is_get_contacts_witness :
  exists rows,
    repository_contacts.get_contacts (up t1) 10 1 alice db0 = (Ok rows, db0) /\
    repository_contacts.search (up t1) None (Some "") None 1 10 alice db0
      = (Ok rows, db0).
Proof.
  apply (search_without_filters_is_get_contacts (up t1) None (Some "") None 1 10
           alice db0 eq_refl eq_refl eq_refl);
    [reflexivity | unfold max_int32; lia | unfold max_int32; lia].
Defined.

(** C7. Whatever the inputs, [search] raises nothing: when running its
    statement fails (unreachable storage, a negative [skip] or [limit]) it
    returns the empty list, and otherwise the rows of the statement. *)
Theorem search_swallows_query_failure (env : Env)
    (first_name last_name email : option string) (skip limit : Z)
    (user : User.t) (db : Database) :
  let stmt := repository_contacts.search_query first_name last_name email skip limit user in
  (forall e,
     fst (execute env stmt db) = Raise e ->
     repository_contacts.search env first_name last_name email skip limit user db
       = (Ok [], db)) /\
  (forall rows,
     fst (execute env stmt db) = Ok rows ->
     repository_contacts.search env first_name last_name email skip limit user db
       = (Ok rows, db)) /\
  (storage_up env = false -> fst (execute env stmt db) = Raise OperationalError).
Proof.
  intro stmt. subst stmt.
  unfold repository_contacts.search, try_except.
  pose proof (execute_frame env
                (repository_contacts.search_query first_name last_name email skip limit user)
                db) as Hframe.
  destruct (execute env _ db) as [[rows|e] db'] eqn:Hex; simpl in Hframe; subst db'.
  - repeat split.
    + intros e He. discriminate.
    + intros rows' Hr. simpl in Hr. now injection Hr as <-.
    + intro Hs. rewrite execute_down in Hex by exact Hs. discriminate.
  - repeat split.
    + intros rows' Hr. discriminate.
    + intro Hs. rewrite execute_down in Hex by exact Hs. now injection Hex as <-.
Qed.

Lemma search_swallows_query_failure_witness :
  fst (execute (down t1)
         (repository_contacts.search_query (Some "jo") None None 0 10 alice) db0)
    = Raise OperationalError /\
  repository_contacts.search (down t1) (Some "jo") None None 0 10 alice db0
    = (Ok [], db0).
Proof.
  destruct (search_swallows_query_failure (down t1) (Some "jo") None None 0 10 alice db0)
    as [Hfail [_ Hdown]].
  split; [exact (Hdown eq_refl) | exact (Hfail _ (Hdown eq_refl))].
Defined.

(** C8 as stated fails: the filter ["_"] is a one-character wildcard, so
    alice's John and Jane are both returned although neither first name
    contains an underscore. *)
Lemma underscore_filter_is_a_wildcard :
  ~ Spec.filters_are_substring_tests (up t1) (Some "_") None None 0 10 alice db0.
Proof.
  intro H.
  destruct (H [john; jane] john eq_refl (or_introl eq_refl)) as [Hfirst _].
  discriminate Hfirst.
Qed.

(** C8, amended. On ASCII text (filters, and names and addresses of the
    caller's contacts), [search] returns the requested page of the caller's
    rows that pass every supplied filter [f], each applied as
    [field ILIKE '%f%']; an absent filter lets every row pass; and for a
    filter free of the pattern characters [%], [_] and backslash that test
    is the case-insensitive substring match: the folded field contains the
    folded filter. *)
Theorem search_filters_are_ilike_patterns (env : Env)
    (first_name last_name email : option string) (skip limit : Z)
    (user : User.t) (db : Database) :
  storage_up env = true -> 0 <= skip <= max_int32 -> 0 <= limit <= max_int32 ->
  ascii_filter first_name = true -> ascii_filter last_name = true ->
  ascii_filter email = true -> ascii_rows user db ->
  let selected :=
    page (Some skip) (Some limit)
      (filter (Spec.search_selects first_name last_name email user) (contacts db)) in
  repository_contacts.search env first_name last_name email skip limit user db
    = (Ok selected, db) /\
  (forall c, In c selected ->
     Spec.owned user c = true /\
     Spec.ilike_filter first_name (Contact.first_name c) = true /\
     Spec.ilike_filter last_name (Contact.last_name c) = true /\
     Spec.ilike_filter email (Contact.email c) = true) /\
  (forall f field, truthy f = false -> Spec.ilike_filter f field = true) /\
  (forall f field,
     ascii_filter f = true -> Text.ascii_only field = true ->
     Text.no_meta (text_of f) = true ->
     Spec.ilike_filter f field = Spec.substring_filter f field) /\
  (forall f field,
     ascii_filter f = true -> Text.ascii_only field = true ->
     truthy f = true -> Text.no_meta (text_of f) = true ->
     (Spec.ilike_filter f field = true <->
      exists pre post,
        Text.lower field = (pre ++ Text.lower (text_of f) ++ post)%string)).
Proof.
  intros Hs Hskip Hlimit _ _ _ _ selected. subst selected.
  split; [|split; [|split; [|split]]]; [| repeat split | | |].
  - rewrite search_eq, Hs.
    now destruct (accepted_paging_range skip limit Hskip Hlimit) as [_ [_ ->]].
  - apply In_page, filter_In in H as [_ H]. unfold Spec.search_selects in H.
    now repeat (apply andb_prop in H as [H _]).
  - apply In_page, filter_In in H as [_ H]. unfold Spec.search_selects in H.
    apply andb_prop in H as [H _]. apply andb_prop in H as [H _].
    now apply andb_prop in H as [_ H].
  - apply In_page, filter_In in H as [_ H]. unfold Spec.search_selects in H.
    apply andb_prop in H as [H _]. now apply andb_prop in H as [_ H].
  - apply In_page, filter_In in H as [_ H]. unfold Spec.search_selects in H.
    now apply andb_prop in H as [_ H].
  - intros f field. apply absent_filter.
  - intros f field _ _ Hmeta. unfold Spec.ilike_filter, Spec.substring_filter.
    destruct (truthy f); [|reflexivity].
    now rewrite (TextFacts.ilike_wrap_no_meta _ field Hmeta).
  - intros f field _ _ Hsupplied Hmeta. unfold Spec.ilike_filter.
    rewrite Hsupplied, (TextFacts.ilike_wrap_no_meta _ field Hmeta).
    apply TextFacts.contains_split.
Qed.

Lemma db0_ascii_rows (user : User.t) : ascii_rows user db0.
Proof.
  intros c Hin _. simpl in Hin.
  destruct Hin as [<-|[<-|[<-|[]]]]; reflexivity.
Defined.

(** Searching alice's contacts for ["jO"] in the first name and ["x.COM"]
    in the address finds John and not Jane. *)
Lemma search_filters_are_ilike_patterns_witness :
  repository_contacts.search (up t1) (Some "jO") None (Some "x.COM") 0 10 alice db0
    = (Ok [john], db0).
Proof.
  exact (proj1 (search_filters_are_ilike_patterns (up t1) (Some "jO") None (Some "x.COM")
                  0 10 alice db0 eq_refl
                  ltac:(unfold max_int32; lia) ltac:(unfold max_int32; lia)
                  eq_refl eq_refl eq_refl (db0_ascii_rows alice))).
Defined.

(** ** Confirming an address *)

Section ConfirmEmail.
Variables (env : Env) (email : string) (db : Database).

Lemma get_user_by_email_eq :
  repository_users.get_user_by_email env email db =
  (if storage_up env then scalar_one_or_none (filter (has_email email) (users db))
   else Raise OperationalError, db).
Proof.
  unfold repository_users.get_user_by_email, bind.
  destruct (storage_up env) eqn:Hs.
  - rewrite (execute_up env _ [has_email email] db Hs) by (simpl; decide_where).
    simpl. unfold lift. do 2 f_equal.
    apply filter_ext. intro u. unfold all_hold. simpl. now rewrite andb_true_r.
  - now rewrite execute_down.
Qed.

Lemma unknown_email_no_rows :
  (forall u, In u (users db) -> User.email u <> email) ->
  filter (has_email email) (users db) = [].
Proof.
  intro Hno. induction (users db) as [|u us IH]; [reflexivity|].
  simpl. destruct (has_email email u) eqn:Hu.
  - exfalso. apply (Hno u); [now left | now apply String.eqb_eq].
  - apply IH. intros u' Hin. apply Hno. now right.
Qed.

Lemma confirmed_email_unknown :
  (forall u, In u (users db) -> User.email u <> email) ->
  repository_users.confirmed_email env email db =
  (Raise (if storage_up env then AttributeError else OperationalError), db).
Proof.
  intro Hno. unfold repository_users.confirmed_email, bind.
  rewrite get_user_by_email_eq, (unknown_email_no_rows Hno).
  now destruct (storage_up env).
Qed.

Lemma confirmed_email_known (u : User.t) :
  storage_up env = true ->
  filter (has_email email) (users db) = [u] ->
  repository_users.confirmed_email env email db =
  (Ok tt,
   mkDatabase (contacts db)
     (if User.confirmed u then users db
      else map (fun x => if User.id x =? User.id u
                         then confirmed_set (clock env) true x else x) (users db))
     (contacts_seq db) (S (commits db))).
Proof.
  intros Hs Hu. unfold repository_users.confirmed_email, bind.
  rewrite get_user_by_email_eq, Hs, Hu. simpl.
  unfold commit. rewrite Hs. simpl.
  now destruct (User.confirmed u).
Qed.

End ConfirmEmail.

(** C5 as stated fails: no user has the address [nobody@x.com], and
    [confirmed_email] does not complete quietly there: it raises
    [AttributeError]. *)
Lemma confirmed_email_unknown_raises :
  (forall u, In u (users db0) -> User.email u <> "nobody@x.com") /\
  repository_users.confirmed_email (up t1) "nobody@x.com" db0
    = (Raise AttributeError, db0) /\
  ~ Spec.fails_silently (up t1) "nobody@x.com" db0.
Proof.
  split; [|split].
  - intros u Hin. simpl in Hin. destruct Hin as [<-|[<-|[]]]; discriminate.
  - reflexivity.
  - unfold Spec.fails_silently. discriminate.
Qed.

(** C5, amended. For an address that no user has, [confirmed_email] raises
    ([AttributeError], the assignment on [None]; the connection error when
    the storage is unreachable) and changes no state.  For an address that
    exactly one user has, it completes and commits once; that user is still
    stored, under the same id, name, address and password, and is now
    confirmed; no user is added or removed, every user with that address is
    confirmed, and neither the contacts nor the users with another id are
    touched. *)
Theorem confirmed_email_confirms_or_raises (env : Env) (email : string)
    (db : Database) :
  ((forall u, In u (users db) -> User.email u <> email) ->
   repository_users.confirmed_email env email db
     = (Raise (if storage_up env then AttributeError else OperationalError), db)) /\
  (forall u,
     storage_up env = true ->
     filter (has_email email) (users db) = [u] ->
     exists db' u',
       repository_users.confirmed_email env email db = (Ok tt, db') /\
       In u' (users db') /\
       User.id u' = User.id u /\ User.email u' = email /\
       User.username u' = User.username u /\ User.password u' = User.password u /\
       User.confirmed u' = true /\
       List.length (users db') = List.length (users db) /\
       (forall x, In x (users db') -> User.email x = email -> User.confirmed x = true) /\
       (forall x, In x (users db) -> User.id x <> User.id u -> In x (users db')) /\
       contacts db' = contacts db /\
       commits db' = S (commits db)).
Proof.
  split; [apply confirmed_email_unknown|].
  intros u Hs Hu.
  assert (Hself : In u (users db) /\ User.email u = email).
  { assert (Hx : In u (filter (has_email email) (users db))) by (rewrite Hu; now left).
    apply filter_In in Hx as [Hin He]. split; [exact Hin | now apply String.eqb_eq]. }
  destruct Hself as [Hin Hemail].
  assert (Honly : forall x, In x (users db) -> User.email x = email -> x = u).
  { intros x Hx He.
    assert (Hxs : In x (filter (has_email email) (users db))).
    { apply filter_In. split; [exact Hx | now apply String.eqb_eq]. }
    rewrite Hu in Hxs. destruct Hxs as [<-|[]]. reflexivity. }
  rewrite (confirmed_email_known env email db u Hs Hu).
  destruct (User.confirmed u) eqn:Hc.
  - exists (mkDatabase (contacts db) (users db) (contacts_seq db) (S (commits db))), u.
    simpl. repeat split; try assumption.
    + intros x Hx He. now rewrite (Honly x Hx He).
    + intros x Hx _. exact Hx.
  - eexists. exists (confirmed_set (clock env) true u).
    split; [reflexivity|]. simpl. repeat split; try assumption.
    + apply in_map_iff. exists u. split; [now rewrite Z.eqb_refl | exact Hin].
    + apply length_map.
    + intros x Hx He. apply in_map_iff in Hx as [y [Hy Hyin]].
      destruct (User.id y =? User.id u) eqn:Hid.
      * subst x. reflexivity.
      * subst x. rewrite (Honly y Hyin He) in Hid. now rewrite Z.eqb_refl in Hid.
    + intros x Hx Hid. apply in_map_iff. exists x. split; [|exact Hx].
      apply Z.eqb_neq in Hid. now rewrite Hid.
Qed.

Lemma confirmed_email_confirms_or_raises_witness :
  exists db' u',
    repository_users.confirmed_email (up t1) "alice@x.com" db0 = (Ok tt, db') /\
    In u' (users db') /\ User.id u' = 1 /\ User.confirmed u' = true /\
    List.length (users db') = 2%nat.
Proof.
  destruct (proj2 (confirmed_email_confirms_or_raises (up t1) "alice@x.com" db0)
              alice eq_refl eq_refl)
    as [db' [u' [Hrun [Hin [Hid [_ [_ [_ [Hconf [Hlen _]]]]]]]]]].
  exists db', u'. repeat split; assumption.
Defined.

(** ** Updating a contact *)

Lemma filter_map_preserved {A} (p : A -> bool) (g : A -> A) (l : list A) :
  (forall x, p (g x) = p x) -> filter p (map g l) = map g (filter p l).
Proof.
  intro Hp. induction l as [|a l IH]; simpl; [reflexivity|].
  rewrite Hp. destruct (p a); simpl; now rewrite IH.
Qed.


Section Touch.
Variables (now : datetime) (loaded : Contact.t) (body : ContactBase.t).

Lemma touch_id r : Contact.id (touch now loaded body r) = Contact.id r.
Proof. unfold touch. now destruct (Contact.id r =? Contact.id loaded). Qed.


Lemma touch_loaded : touch now loaded body loaded = updated now loaded body loaded.
Proof. unfold touch. now rewrite Z.eqb_refl. Qed.


End Touch.

Section UpdateFound.
Variables (env : Env) (contact_id : Z) (body : ContactBase.t) (user : User.t).
Variables (db : Database) (c : Contact.t).
Hypothesis Hup : storage_up env = true.
Hypothesis Hid : in_int32 contact_id = true.
Hypothesis Hrow : filter (is_target user contact_id) (contacts db) = [c].

(** [update_contact] on a row that is found. *)
Lemma update_contact_found :
  repository_contacts.update_contact env contact_id body user db =
  if net_change c body
  then if columns_ok c body
       then (reread c (map (touch (clock env) c body) (contacts db)),
             committed db (map (touch (clock env) c body) (contacts db)))
       else (Raise DataError, db)
  else (reread c (contacts db), committed db (contacts db)).
Proof.
  unfold repository_contacts.update_contact, bind.
  fold (lookup_stmt user contact_id). rewrite lookup_rows, Hup, Hid, Hrow.
  unfold lift, scalar_one_or_none, commit. rewrite Hup. simpl negb. cbv iota.
  unfold flush, columns_ok, reread.
  destruct (net_change c body); simpl negb; cbv iota.
  - destruct (set_ok (ContactBase.first_name body) (Contact.first_name c)
              && set_ok (ContactBase.last_name body) (Contact.last_name c)
              && set_ok (ContactBase.email body) (Contact.email c)
              && set_ok (ContactBase.phone_number body) (Contact.phone_number c));
      simpl negb; cbv iota; [|reflexivity].
    rewrite (refresh_rows env _ _ Hup). simpl contacts.
    unfold with_contacts, committed, touch. simpl.
    destruct (filter _ (map _ (contacts db))) as [|r [|r' rs]]; reflexivity.
  - rewrite (refresh_rows env _ _ Hup). simpl contacts. unfold committed.
    destruct (filter (fun r => Contact.id r =? Contact.id c) (contacts db))
      as [|r [|r' rs]]; reflexivity.
Qed.

Lemma found_in_table : In c (contacts db) /\ is_target user contact_id c = true.
Proof.
  assert (H : In c (filter (is_target user contact_id) (contacts db)))
    by (rewrite Hrow; now left).
  now apply filter_In in H.
Qed.

End UpdateFound.






Section Again.
Variables (now1 now2 : datetime) (c : Contact.t) (body : ContactBase.t).







End Again.




(* ================================================================= *)
(** * Further properties of the repository and its handlers *)

(** ** Lookups over unique primary keys *)

Lemma filter_none {A} (p : A -> bool) (l : list A) :
  (forall x, In x l -> p x = false) -> filter p l = [].
Proof.
  induction l as [|a l IH]; intro Hp; simpl; [reflexivity|].
  rewrite (Hp a (or_introl eq_refl)). apply IH. intros x Hx. apply Hp. now right.
Qed.

(** Among rows with distinct keys, a test that only the key of [c] can pass
    selects [c] alone. *)
Lemma filter_unique {A B} (key : A -> B) (p : A -> bool) (l : list A) (c : A) :
  NoDup (map key l) -> In c l -> p c = true ->
  (forall x, In x l -> p x = true -> key x = key c) ->
  filter p l = [c].
Proof.
  induction l as [|a l IH]; intros Hnd Hin Hc Hkey; [contradiction|].
  simpl in Hnd. apply NoDup_cons_iff in Hnd as [Hfresh Hnd].
  destruct Hin as [->|Hin].
  - simpl. rewrite Hc. f_equal. apply filter_none. intros x Hx.
    destruct (p x) eqn:Hpx; [|reflexivity].
    exfalso. apply Hfresh. rewrite <- (Hkey x (or_intror Hx) Hpx).
    now apply in_map.
  - simpl. destruct (p a) eqn:Hpa.
    + exfalso. apply Hfresh. rewrite (Hkey a (or_introl eq_refl) Hpa).
      now apply in_map.
    + apply IH; try assumption. intros x Hx. apply Hkey. now right.
Qed.

Lemma owned_target (user : User.t) (db : Database) (c : Contact.t) :
  unique_ids db -> In c (contacts db) ->
  Contact.user_id c = Some (User.id user) ->
  filter (is_target user (Contact.id c)) (contacts db) = [c].
Proof.
  intros Hu Hin Hown. apply (filter_unique Contact.id); try assumption.
  - apply is_target_spec. now split.
  - intros x _ Hx. now apply is_target_spec in Hx.
Qed.

Lemma same_id_row (db : Database) (c : Contact.t) :
  unique_ids db -> In c (contacts db) ->
  filter (fun r => Contact.id r =? Contact.id c) (contacts db) = [c].
Proof.
  intros Hu Hin. apply (filter_unique Contact.id); try assumption.
  - apply Z.eqb_refl.
  - intros x _ Hx. now apply Z.eqb_eq.
Qed.

(** X1. With unique primary keys and a reachable storage, [get_contact]
    returns the caller's own row for its id (an [Integer], as the column
    is), and reads only. *)
Theorem get_contact_owned (env : Env) (user : User.t) (db : Database)
    (c : Contact.t) :
  storage_up env = true -> unique_ids db -> In c (contacts db) ->
  in_int32 (Contact.id c) = true ->
  Contact.user_id c = Some (User.id user) ->
  repository_contacts.get_contact env (Contact.id c) user db = (Ok (Some c), db).
Proof.
  intros Hs Hu Hin Hid Hown. unfold repository_contacts.get_contact, bind.
  fold (lookup_stmt user (Contact.id c)).
  rewrite lookup_rows, Hs, Hid, (owned_target user db c Hu Hin Hown). reflexivity.
Qed.

Lemma db0_unique_ids : unique_ids db0.
Proof.
  unfold unique_ids. simpl. repeat constructor; simpl; intuition discriminate.
Defined.

Lemma get_contact_owned_witness :
  repository_contacts.get_contact (up t1) 2 alice db0 = (Ok (Some jane), db0).
Proof.
  exact (get_contact_owned (up t1) alice db0 jane eq_refl db0_unique_ids
           (or_intror (or_introl eq_refl)) eq_refl eq_refl).
Defined.

(** X2. In every state of the storage, a contact that [get_contact] returns
    is a stored row with the requested id whose owner is the caller. *)
Theorem get_contact_sound (env : Env) (contact_id : Z) (user : User.t)
    (db db' : Database) (c : Contact.t) :
  repository_contacts.get_contact env contact_id user db = (Ok (Some c), db') ->
  db' = db /\ In c (contacts db) /\ Contact.id c = contact_id /\
  Contact.user_id c = Some (User.id user).
Proof.
  unfold repository_contacts.get_contact, bind.
  fold (lookup_stmt user contact_id). rewrite lookup_rows.
  destruct (storage_up env); [|discriminate].
  destruct (in_int32 contact_id); [|discriminate].
  destruct (filter (is_target user contact_id) (contacts db)) as [|r [|r' rs]] eqn:Hrows;
    simpl; try discriminate.
  intro H. injection H as <- <-.
  assert (Hr : In r (filter (is_target user contact_id) (contacts db)))
    by (rewrite Hrows; now left).
  apply filter_In in Hr as [Hin Ht]. apply is_target_spec in Ht. tauto.
Qed.

Lemma get_contact_sound_witness :
  In john (contacts db0) /\ Contact.id john = 1 /\ Contact.user_id john = Some 1.
Proof.
  exact (proj2 (get_contact_sound (up t1) 1 alice db0 db0 john eq_refl)).
Defined.

(** ** What [create] stores *)

Lemma create_inv (env : Env) (body : ContactBase.t) (user : User.t)
    (db db' : Database) (c : Contact.t) :
  repository_contacts.create env body user db = (Ok c, db') ->
  insertable env body user db = true /\
  c = new_row env body user db /\ db' = after_insert env body user db.
Proof.
  rewrite create_eq. destruct (insertable env body user db); [|discriminate].
  intro H. now injection H as <- <-.
Qed.

Lemma insertable_no_collision (env : Env) (body : ContactBase.t) (user : User.t)
    (db : Database) :
  insertable env body user db = true ->
  existsb (fun r => Contact.id r =? contacts_seq db) (contacts db) = false.
Proof.
  unfold insertable. intro H. apply andb_prop in H as [_ H].
  now apply negb_true_iff in H.
Qed.

Lemma no_row_with_id (user : User.t) (pk : Z) (cs : list Contact.t) :
  existsb (fun r => Contact.id r =? pk) cs = false ->
  filter (is_target user pk) cs = [].
Proof.
  intro H. apply filter_none. intros x Hx. unfold is_target.
  destruct (Contact.id x =? pk) eqn:Hid; [|reflexivity].
  exfalso. assert (Hex : existsb (fun r => Contact.id r =? pk) cs = true)
    by (apply existsb_exists; now exists x).
  congruence.
Qed.

(** X3. A contact returned by [create] can be read back: [get_contact] with
    its id (an [Integer], as the column is) gives the creating user that
    very record, and gives any user with another id [None]. *)
Theorem create_then_get_contact (env env' : Env) (body : ContactBase.t)
    (user other : User.t) (db db' : Database) (c : Contact.t) :
  repository_contacts.create env body user db = (Ok c, db') ->
  storage_up env' = true -> in_int32 (Contact.id c) = true ->
  repository_contacts.get_contact env' (Contact.id c) user db' = (Ok (Some c), db') /\
  (User.id other <> User.id user ->
   repository_contacts.get_contact env' (Contact.id c) other db' = (Ok None, db')).
Proof.
  intros Hc Hs Hid. apply create_inv in Hc as [Hins [-> ->]].
  pose proof (insertable_no_collision _ _ _ _ Hins) as Hfresh.
  change (Contact.id (new_row env body user db)) with (contacts_seq db) in *.
  unfold repository_contacts.get_contact, bind. split.
  - fold (lookup_stmt user (contacts_seq db)).
    rewrite lookup_rows, Hs, Hid. simpl contacts.
    rewrite filter_app, (no_row_with_id user _ _ Hfresh). simpl.
    unfold is_target, Spec.owned. simpl. now rewrite !Z.eqb_refl.
  - intro Hother.
    fold (lookup_stmt other (contacts_seq db)).
    rewrite lookup_rows, Hs, Hid. simpl contacts.
    rewrite filter_app, (no_row_with_id other _ _ Hfresh). simpl.
    unfold is_target, Spec.owned. simpl.
    apply not_eq_sym, Z.eqb_neq in Hother. now rewrite Hother, andb_false_r.
Qed.

(** John Doe created by alice gets id 4; alice reads him back, bob gets
    [None]. *)
Lemma create_then_get_contact_witness :
  exists c db',
    repository_contacts.create (up t1) body_john alice db0 = (Ok c, db') /\
    Contact.id c = 4 /\
    repository_contacts.get_contact (up t2) 4 alice db' = (Ok (Some c), db') /\
    repository_contacts.get_contact (up t2) 4 bob db' = (Ok None, db').
Proof.
  eexists. eexists. split; [reflexivity|]. split; [reflexivity|].
  destruct (create_then_get_contact (up t1) (up t2) body_john alice bob db0 _ _
              eq_refl eq_refl eq_refl) as [Hmine Hother].
  split; [exact Hmine | apply Hother; discriminate].
Defined.



(** X5. [create] keeps the primary keys unique and the id sequence ahead of
    them, and when it raises it has stored nothing: both tables are as they
    were. *)
Theorem create_keeps_keys (env : Env) (body : ContactBase.t) (user : User.t)
    (db : Database) :
  unique_ids db -> Spec.seq_fresh db ->
  let out := repository_contacts.create env body user db in
  unique_ids (snd out) /\ Spec.seq_fresh (snd out) /\
  (forall e, fst out = Raise e ->
     contacts (snd out) = contacts db /\ users (snd out) = users db).
Proof.
  intros Hu Hf out. subst out. rewrite create_eq.
  destruct (insertable env body user db) eqn:Hins; simpl.
  - split; [|split; [|discriminate]].
    + unfold unique_ids. simpl. rewrite map_app. simpl.
      apply NoDup_app; [exact Hu | repeat constructor; intros [] |].
      intros x Hx [<-|[]]. apply in_map_iff in Hx as [r [Hid Hr]].
      specialize (Hf r Hr). unfold new_row in Hid. simpl in Hid. lia.
    + intros r Hr. simpl in *. apply in_app_or in Hr as [Hr | [<-|[]]].
      * specialize (Hf r Hr). lia.
      * simpl. lia.
  - now repeat split.
Qed.

Lemma create_keeps_keys_witness :
  unique_ids (snd (repository_contacts.create (up t1) body_john alice db0)) /\
  Spec.seq_fresh (snd (repository_contacts.create (up t1) body_john alice db0)).
Proof.
  destruct (create_keeps_keys (up t1) body_john alice db0 db0_unique_ids db0_seq_fresh)
    as [Hu [Hf _]].
  split; [exact Hu | exact Hf].
Defined.

(** ** Updating and deleting a row that is found *)

Lemma unique_ids_inj (db : Database) (a b : Contact.t) :
  unique_ids db -> In a (contacts db) -> In b (contacts db) ->
  Contact.id a = Contact.id b -> a = b.
Proof.
  unfold unique_ids. induction (contacts db) as [|x l IH]; intros Hnd Ha Hb Hid;
    [contradiction|].
  simpl in Hnd. apply NoDup_cons_iff in Hnd as [Hfresh Hnd].
  destruct Ha as [->|Ha], Hb as [->|Hb].
  - reflexivity.
  - exfalso. apply Hfresh. rewrite Hid. now apply in_map.
  - exfalso. apply Hfresh. rewrite <- Hid. now apply in_map.
  - now apply IH.
Qed.




Lemma path_id_fits (contact_id : Z) :
  1 <= contact_id <= max_int32 -> in_int32 contact_id = true.
Proof.
  intros [Hlo Hhi]. unfold in_int32, max_int32 in *.
  apply andb_true_intro. split; apply Z.leb_le; lia.
Qed.

Section FoundRow.
Variables (env : Env) (user : User.t) (db : Database) (c : Contact.t).
Hypothesis Hup : storage_up env = true.
Hypothesis Hunique : unique_ids db.
Hypothesis Hin : In c (contacts db).
Hypothesis Hown : Contact.user_id c = Some (User.id user).
Hypothesis Hid : in_int32 (Contact.id c) = true.

Lemma reread_touched (body : ContactBase.t) :
  reread c (map (touch (clock env) c body) (contacts db))
  = Ok (Some (updated (clock env) c body c)).
Proof.
  unfold reread.
  rewrite filter_map_preserved by (intro x; now rewrite touch_id).
  rewrite (same_id_row db c Hunique Hin). simpl. now rewrite touch_loaded.
Qed.

Lemma update_contact_owned (body : ContactBase.t) :
  repository_contacts.update_contact env (Contact.id c) body user db =
  if net_change c body
  then if columns_ok c body
       then (Ok (Some (updated (clock env) c body c)),
             committed db (map (touch (clock env) c body) (contacts db)))
       else (Raise DataError, db)
  else (Ok (Some c), committed db (contacts db)).
Proof.
  rewrite (update_contact_found env (Contact.id c) body user db c Hup Hid
             (owned_target user db c Hunique Hin Hown)).
  rewrite reread_touched. unfold reread.
  now rewrite (same_id_row db c Hunique Hin).
Qed.

Lemma delete_contact_owned :
  repository_contacts.delete_contact env (Contact.id c) user db =
  (Ok (Some c),
   committed db (filter (fun r => negb (Contact.id r =? Contact.id c)) (contacts db))).
Proof.
  unfold repository_contacts.delete_contact, bind.
  fold (lookup_stmt user (Contact.id c)).
  rewrite lookup_rows, Hup, Hid, (owned_target user db c Hunique Hin Hown).
  unfold lift, scalar_one_or_none, commit. rewrite Hup. reflexivity.
Qed.

End FoundRow.



Lemma too_long_differs (new loaded : string) :
  fits50 new = false -> fits50 loaded = true ->
  String.eqb new loaded = false /\ set_ok new loaded = false.
Proof.
  intros Hnew Hloaded.
  assert (Hne : String.eqb new loaded = false).
  { destruct (String.eqb new loaded) eqn:He; [|reflexivity].
    apply String.eqb_eq in He. congruence. }
  split; [exact Hne|]. unfold set_ok. now rewrite Hne, Hnew.
Qed.

Lemma too_long_refused (c : Contact.t) (body : ContactBase.t) :
  row_fits c = true -> Spec.fits_columns body = false ->
  net_change c body = true /\ columns_ok c body = false.
Proof.
  unfold row_fits, Spec.fits_columns, net_change, columns_ok. intros Hrow Hbody.
  apply andb_prop in Hrow as [Hrow Hp]. apply andb_prop in Hrow as [Hrow He].
  apply andb_prop in Hrow as [Hf Hl].
  destruct (fits50 (ContactBase.first_name body)) eqn:Bf.
  - destruct (fits50 (ContactBase.last_name body)) eqn:Bl.
    + destruct (fits50 (ContactBase.email body)) eqn:Be.
      * destruct (fits50 (ContactBase.phone_number body)) eqn:Bp; [discriminate|].
        destruct (too_long_differs _ _ Bp Hp) as [-> ->].
        now rewrite !andb_false_r.
      * destruct (too_long_differs _ _ Be He) as [-> ->].
        now rewrite !andb_false_r.
    + destruct (too_long_differs _ _ Bl Hl) as [-> ->].
      now rewrite !andb_false_r.
  - destruct (too_long_differs _ _ Bf Hf) as [-> ->]. now split.
Qed.

Lemma over_long_refused (b : ContactBase.t) :
  has_over_long b = true -> Spec.fits_columns b = false.
Proof.
  unfold has_over_long, over_long, Spec.fits_columns. intro H.
  destruct (fits50 (ContactBase.first_name b)); [|reflexivity].
  destruct (fits50 (ContactBase.last_name b)); [|reflexivity].
  destruct (fits50 (ContactBase.email b)); [|reflexivity].
  destruct (fits50 (ContactBase.phone_number b)); [|reflexivity].
  discriminate H.
Qed.

(** X7. A body with an ASCII field of more than 50 characters, the excess
    not made of blanks, written over a stored row of the caller that fits,
    makes [update_contact] raise the storage's [DataError] itself (it has no
    handler of its own) and store nothing; the [PUT] handler answers 500. *)
Theorem update_contact_too_long (env : Env) (user : User.t) (db : Database)
    (c : Contact.t) (body : ContactBase.t) :
  storage_up env = true -> unique_ids db -> In c (contacts db) ->
  Contact.user_id c = Some (User.id user) ->
  row_fits c = true -> has_over_long body = true ->
  1 <= Contact.id c <= max_int32 ->
  repository_contacts.update_contact env (Contact.id c) body user db
    = (Raise DataError, db) /\
  routes_contacts.update_contact env body (Contact.id c) user db
    = (routes_contacts.Refused 500 "Internal Server Error", db).
Proof.
  intros Hs Hu Hin Hown Hrow Hbody Hid.
  destruct (too_long_refused c body Hrow (over_long_refused body Hbody)) as [Hnet Hcols].
  assert (Hrange : in_int32 (Contact.id c) = true) by now apply path_id_fits.
  assert (Hrepo : repository_contacts.update_contact env (Contact.id c) body user db
                  = (Raise DataError, db)).
  { rewrite (update_contact_owned env user db c Hs Hu Hin Hown Hrange body).
    now rewrite Hnet, Hcols. }
  split; [exact Hrepo|].
  unfold routes_contacts.update_contact, routes_contacts.bounded,
    routes_contacts.answer, bind.
  destruct Hid as [Hid _]. apply Z.leb_le in Hid. rewrite Hid. simpl.
  now rewrite Hrepo.
Qed.

Lemma update_contact_too_long_witness :
  repository_contacts.update_contact (up t1) 1 body_long alice db0
    = (Raise DataError, db0) /\
  routes_contacts.update_contact (up t1) body_long 1 alice db0
    = (routes_contacts.Refused 500 "Internal Server Error", db0).
Proof.
  apply (update_contact_too_long (up t1) alice db0 john body_long eq_refl
           db0_unique_ids (or_introl eq_refl) eq_refl eq_refl eq_refl).
  unfold max_int32. simpl. lia.
Defined.

Lemma filter_split_length {A} (p : A -> bool) (l : list A) :
  (List.length (filter p l) + List.length (filter (fun x => negb (p x)) l))%nat
  = List.length l.
Proof.
  induction l as [|a l IH]; simpl; [reflexivity|].
  destruct (p a); simpl; lia.
Qed.

(** X8. With unique keys and a reachable storage, [delete_contact] on a row
    of the caller (its id an [Integer], as the column is) returns that row
    and removes it and nothing else: the
    table is one row shorter, every other row is still there, and from then
    on [get_contact] and a second [delete_contact] with that id answer
    [None]. *)
Theorem delete_contact_removes_row (env env' : Env) (user : User.t)
    (db : Database) (c : Contact.t) :
  storage_up env = true -> storage_up env' = true ->
  unique_ids db -> In c (contacts db) ->
  in_int32 (Contact.id c) = true ->
  Contact.user_id c = Some (User.id user) ->
  exists db',
    repository_contacts.delete_contact env (Contact.id c) user db = (Ok (Some c), db') /\
    ~ In c (contacts db') /\
    (forall r, In r (contacts db) -> r <> c -> In r (contacts db')) /\
    List.length (contacts db) = S (List.length (contacts db')) /\
    users db' = users db /\
    repository_contacts.get_contact env' (Contact.id c) user db' = (Ok None, db') /\
    repository_contacts.delete_contact env' (Contact.id c) user db' = (Ok None, db').
Proof.
  intros Hs Hs' Hu Hin Hrange Hown.
  rewrite (delete_contact_owned env user db c Hs Hu Hin Hown Hrange).
  eexists. split; [reflexivity|]. simpl.
  assert (Hgone : not_owned user (Contact.id c)
                    (committed db (filter (fun r => negb (Contact.id r =? Contact.id c))
                                     (contacts db)))).
  { intros r Hr [Hid _]. simpl in Hr. apply filter_In in Hr as [_ Hr].
    rewrite Hid, Z.eqb_refl in Hr. discriminate. }
  repeat split.
  - intro Hc. apply filter_In in Hc as [_ Hc]. rewrite Z.eqb_refl in Hc. discriminate.
  - intros r Hr Hne. apply filter_In. split; [exact Hr|].
    apply negb_true_iff, Z.eqb_neq. intro Hid. apply Hne.
    now apply (unique_ids_inj db).
  - pose proof (filter_split_length (fun r => Contact.id r =? Contact.id c) (contacts db))
      as Hlen.
    rewrite (same_id_row db c Hu Hin) in Hlen. simpl in Hlen. lia.
  - rewrite (get_contact_not_owned env' user _ _ Hgone). unfold lookup_miss.
    now rewrite Hs', Hrange.
  - rewrite (delete_contact_not_owned env' user _ _ Hgone). unfold lookup_miss.
    now rewrite Hs', Hrange.
Qed.

Lemma delete_contact_removes_row_witness :
  exists db',
    repository_contacts.delete_contact (up t1) 2 alice db0 = (Ok (Some jane), db') /\
    contacts db' = [john; carl] /\
    repository_contacts.get_contact (up t2) 2 alice db' = (Ok None, db').
Proof.
  destruct (delete_contact_removes_row (up t1) (up t2) alice db0 jane eq_refl eq_refl
              db0_unique_ids (or_intror (or_introl eq_refl)) eq_refl eq_refl)
    as [db' [Hrun [_ [_ [_ [_ [Hget _]]]]]]].
  exists db'. split; [exact Hrun|]. split; [|exact Hget].
  injection Hrun as <-. reflexivity.
Defined.

(** ** What the writers keep *)

Section WriterStates.
Variables (env : Env) (contact_id : Z) (user : User.t) (db : Database).

(** The storage [update_contact] can leave behind. *)
Lemma update_contact_state (body : ContactBase.t) :
  let db' := snd (repository_contacts.update_contact env contact_id body user db) in
  db' = db \/ db' = committed db (contacts db) \/
  exists c, In c (contacts db) /\ is_target user contact_id c = true /\
            db' = committed db (map (touch (clock env) c body) (contacts db)).
Proof.
  assert (Hstop : storage_up env = false \/ in_int32 contact_id = false ->
                  snd (repository_contacts.update_contact env contact_id body user db)
                  = db).
  { intro H. unfold repository_contacts.update_contact, bind.
    fold (lookup_stmt user contact_id). rewrite lookup_rows.
    destruct (storage_up env); [|reflexivity].
    destruct (in_int32 contact_id); [|reflexivity].
    destruct H; discriminate. }
  destruct (storage_up env) eqn:Hs; [|left; apply Hstop; now left].
  destruct (in_int32 contact_id) eqn:Hid; [|left; apply Hstop; now right].
  clear Hstop.
  destruct (filter (is_target user contact_id) (contacts db)) as [|c [|c' cs]] eqn:Hrow.
  - left. unfold repository_contacts.update_contact, bind.
    fold (lookup_stmt user contact_id). now rewrite lookup_rows, Hs, Hid, Hrow.
  - simpl. rewrite (update_contact_found env contact_id body user db c Hs Hid Hrow).
    destruct (net_change c body); [destruct (columns_ok c body)|]; simpl.
    + right. right. exists c.
      destruct (found_in_table contact_id user db c Hrow) as [Hin Ht]. now repeat split.
    + now left.
    + right. now left.
  - left. unfold repository_contacts.update_contact, bind.
    fold (lookup_stmt user contact_id). now rewrite lookup_rows, Hs, Hid, Hrow.
Qed.

(** The storage [delete_contact] can leave behind. *)
Lemma delete_contact_state :
  let db' := snd (repository_contacts.delete_contact env contact_id user db) in
  db' = db \/
  exists c, In c (contacts db) /\ is_target user contact_id c = true /\
            db' = committed db
                    (filter (fun r => negb (Contact.id r =? Contact.id c)) (contacts db)).
Proof.
  unfold repository_contacts.delete_contact, bind.
  fold (lookup_stmt user contact_id). rewrite lookup_rows.
  destruct (storage_up env) eqn:Hs; [|now left].
  destruct (in_int32 contact_id); [|now left].
  destruct (filter (is_target user contact_id) (contacts db)) as [|c [|c' cs]] eqn:Hrow;
    simpl; try (now left).
  unfold commit. rewrite Hs. simpl. right. exists c.
  destruct (found_in_table contact_id user db c Hrow) as [Hin Ht]. now repeat split.
Qed.

End WriterStates.

Lemma map_id_touch now c body (l : list Contact.t) :
  map Contact.id (map (touch now c body) l) = map Contact.id l.
Proof.
  rewrite map_map. apply map_ext. intro r. apply touch_id.
Qed.

(** Dropping rows keeps the remaining keys distinct. *)
Lemma filter_keeps_keys_unique {Row Key} (key : Row -> Key) (keep : Row -> bool)
    (rows : list Row) :
  NoDup (map key rows) -> NoDup (map key (filter keep rows)).
Proof.
  intro Hnd. induction rows as [|a rows IH]; simpl; [constructor|].
  simpl in Hnd. apply NoDup_cons_iff in Hnd as [Hfresh Hnd].
  destruct (keep a); simpl; [|now apply IH].
  constructor; [|now apply IH].
  intro Hin. apply Hfresh. apply in_map_iff in Hin as [x [Hx Hin]].
  apply filter_In in Hin as [Hin _]. rewrite <- Hx. now apply in_map.
Qed.

(** X9. [update_contact] and [delete_contact], whatever they are given and
    however they end, keep the primary keys unique and below the id
    sequence, and leave the users table alone. *)
Theorem update_delete_keep_keys (env : Env) (contact_id : Z) (body : ContactBase.t)
    (user : User.t) (db : Database) :
  unique_ids db -> Spec.seq_fresh db ->
  let upd := snd (repository_contacts.update_contact env contact_id body user db) in
  let del := snd (repository_contacts.delete_contact env contact_id user db) in
  (unique_ids upd /\ Spec.seq_fresh upd /\ users upd = users db) /\
  (unique_ids del /\ Spec.seq_fresh del /\ users del = users db).
Proof.
  intros Hu Hf upd del. subst upd del. split.
  - destruct (update_contact_state env contact_id user db body)
      as [-> | [-> | [c [_ [_ ->]]]]].
    + now repeat split.
    + now repeat split.
    + repeat split.
      * unfold unique_ids. simpl. now rewrite map_id_touch.
      * intros r Hr. simpl in *. apply in_map_iff in Hr as [x [<- Hx]].
        rewrite touch_id. now apply Hf.
  - destruct (delete_contact_state env contact_id user db) as [-> | [c [_ [_ ->]]]].
    + now repeat split.
    + repeat split.
      * unfold unique_ids. simpl. now apply filter_keeps_keys_unique.
      * intros r Hr. simpl in *. apply filter_In in Hr as [Hr _]. now apply Hf.
Qed.

Lemma update_delete_keep_keys_witness :
  unique_ids (snd (repository_contacts.update_contact (up t1) 1 body_jon alice db0)) /\
  unique_ids (snd (repository_contacts.delete_contact (up t1) 1 alice db0)).
Proof.
  destruct (update_delete_keep_keys (up t1) 1 body_jon alice db0
              db0_unique_ids db0_seq_fresh) as [[Hu _] [Hd _]].
  split; [exact Hu | exact Hd].
Defined.

(** X10. With unique keys, no call of [create], [update_contact] or
    [delete_contact] by one user changes or removes a row that this user
    does not own, whatever id and body are passed and however the call
    ends. *)
Theorem writers_leave_foreign_rows (env : Env) (contact_id : Z)
    (body : ContactBase.t) (user : User.t) (db : Database) (r : Contact.t) :
  unique_ids db -> In r (contacts db) -> Spec.owned user r = false ->
  In r (contacts (snd (repository_contacts.create env body user db))) /\
  In r (contacts (snd (repository_contacts.update_contact env contact_id body user db))) /\
  In r (contacts (snd (repository_contacts.delete_contact env contact_id user db))).
Proof.
  intros Hu Hr Hforeign.
  assert (Hother : forall c, In c (contacts db) -> is_target user contact_id c = true ->
                             (Contact.id r =? Contact.id c) = false).
  { intros c Hc Ht. apply Z.eqb_neq. intro Hid.
    rewrite (unique_ids_inj db r c Hu Hr Hc Hid) in Hforeign.
    unfold is_target in Ht. apply andb_prop in Ht as [_ Ht]. congruence. }
  split; [|split].
  - rewrite create_eq. destruct (insertable env body user db); simpl; [|exact Hr].
    apply in_or_app. now left.
  - destruct (update_contact_state env contact_id user db body)
      as [-> | [-> | [c [Hc [Ht ->]]]]]; try exact Hr.
    simpl. apply in_map_iff. exists r. split; [|exact Hr].
    unfold touch. now rewrite (Hother c Hc Ht).
  - destruct (delete_contact_state env contact_id user db) as [-> | [c [Hc [Ht ->]]]];
      [exact Hr|].
    simpl. apply filter_In. split; [exact Hr|]. now rewrite (Hother c Hc Ht).
Qed.

(** Bob targets alice's ids and his own: john stays as he is. *)
Lemma writers_leave_foreign_rows_witness :
  In john (contacts (snd (repository_contacts.update_contact (up t1) 1 body_jon bob db0))) /\
  In john (contacts (snd (repository_contacts.delete_contact (up t1) 3 bob db0))).
Proof.
  split.
  - exact (proj1 (proj2 (writers_leave_foreign_rows (up t1) 1 body_jon bob db0 john
                           db0_unique_ids (or_introl eq_refl) eq_refl))).
  - exact (proj2 (proj2 (writers_leave_foreign_rows (up t1) 3 body_jon bob db0 john
                           db0_unique_ids (or_introl eq_refl) eq_refl))).
Defined.

(** ** Pages of [get_contacts] *)

Lemma firstn_add {A} (a b : nat) (l : list A) :
  firstn (a + b) l = (firstn a l ++ firstn b (skipn a l))%list.
Proof.
  revert l. induction a as [|a IH]; intro l; [reflexivity|].
  destruct l as [|x l]; simpl.
  - now destruct b.
  - now rewrite IH.
Qed.

Lemma page_add {A} (off a b : Z) (l : list A) :
  0 <= off -> 0 <= a -> 0 <= b ->
  page (Some off) (Some (a + b)) l
  = (page (Some off) (Some a) l ++ page (Some (off + a)) (Some b) l)%list.
Proof.
  intros Hoff Ha Hb. unfold page.
  rewrite !Z2Nat.inj_add by assumption.
  rewrite firstn_add, skipn_skipn. do 3 f_equal. lia.
Qed.

Lemma nonnegative_paging (off lim : Z) :
  0 <= off -> 0 <= lim -> (off <? 0) || (lim <? 0) = false.
Proof.
  intros Hoff Hlim. apply Z.ltb_ge in Hoff, Hlim. now rewrite Hoff, Hlim.
Qed.

(** X11. Every list [get_contacts] returns consists of stored rows of the
    caller and has at most [limit] elements; the call reads only. *)
Theorem get_contacts_page_bounds (env : Env) (limit offset : Z) (user : User.t)
    (db db' : Database) (rows : list Contact.t) :
  repository_contacts.get_contacts env limit offset user db = (Ok rows, db') ->
  db' = db /\
  Z.of_nat (List.length rows) <= limit /\
  forall c, In c rows ->
    In c (contacts db) /\ Contact.user_id c = Some (User.id user).
Proof.
  rewrite get_contacts_eq.
  destruct (storage_up env); [|discriminate].
  destruct (in_int32 offset && in_int32 limit); [|discriminate].
  destruct ((offset <? 0) || (limit <? 0)) eqn:Hneg; [discriminate|].
  intro H. injection H as <- <-.
  apply orb_false_elim in Hneg as [_ Hlim]. apply Z.ltb_ge in Hlim.
  split; [reflexivity|]. split.
  - unfold page. pose proof (firstn_le_length (Z.to_nat limit)
                               (skipn (Z.to_nat offset)
                                  (filter (Spec.owned user) (contacts db)))). lia.
  - intros c Hc. apply (In_page (Some offset) (Some limit)) in Hc.
    apply filter_In in Hc as [Hin Hown].
    split; [exact Hin | now apply owned_spec].
Qed.

Lemma get_contacts_page_bounds_witness :
  Z.of_nat (List.length [john]) <= 1 /\
  forall c, In c [john] -> In c (contacts db0) /\ Contact.user_id c = Some 1.
Proof.
  exact (proj2 (get_contacts_page_bounds (up t1) 1 0 alice db0 db0 [john] eq_refl)).
Defined.

(** X12. The sizes of consecutive pages add up: on a reachable storage,
    for non-negative 32-bit integers, the page of [a + b] rows at [offset]
    has as many rows as the page of [a] rows at [offset] and the page of
    [b] rows at [offset + a] together. *)
Theorem get_contacts_page_sizes_add (env : Env) (offset a b : Z) (user : User.t)
    (db : Database) :
  storage_up env = true -> 0 <= offset -> 0 <= a -> 0 <= b ->
  offset + a + b <= max_int32 ->
  exists first second both,
    repository_contacts.get_contacts env a offset user db = (Ok first, db) /\
    repository_contacts.get_contacts env b (offset + a) user db = (Ok second, db) /\
    repository_contacts.get_contacts env (a + b) offset user db = (Ok both, db) /\
    List.length both = (List.length first + List.length second)%nat.
Proof.
  intros Hs Hoff Ha Hb Hmax. rewrite !get_contacts_eq, Hs.
  destruct (accepted_paging_range offset a) as [-> [-> _]]; [lia | lia |].
  destruct (accepted_paging_range (offset + a) b) as [-> [-> _]]; [lia | lia |].
  destruct (accepted_paging_range offset (a + b)) as [-> [-> _]]; [lia | lia |].
  eexists. eexists. eexists.
  split; [reflexivity|]. split; [reflexivity|]. split; [reflexivity|].
  now rewrite page_add, length_app.
Qed.

Lemma get_contacts_page_sizes_add_witness :
  exists first second both,
    repository_contacts.get_contacts (up t1) 1 0 alice db0 = (Ok first, db0) /\
    repository_contacts.get_contacts (up t1) 1 1 alice db0 = (Ok second, db0) /\
    repository_contacts.get_contacts (up t1) 2 0 alice db0 = (Ok both, db0) /\
    List.length both = (List.length first + List.length second)%nat.
Proof.
  exact (get_contacts_page_sizes_add (up t1) 0 1 1 alice db0 eq_refl
           ltac:(lia) ltac:(lia) ltac:(lia) ltac:(unfold max_int32; lia)).
Defined.

(** ** Filters of [search] *)

Lemma lower_empty (x : string) : Text.lower x = EmptyString -> x = EmptyString.
Proof. now destruct x. Qed.

Lemma truthy_text (f : option string) :
  truthy f = match text_of f with EmptyString => false | _ => true end.
Proof. now destruct f as [[|c x]|]. Qed.

Lemma truthy_lower (f f' : option string) :
  Text.lower (text_of f) = Text.lower (text_of f') -> truthy f = truthy f'.
Proof.
  rewrite !truthy_text. intro H.
  destruct (text_of f) as [|c x], (text_of f') as [|c' x']; try reflexivity;
    discriminate.
Qed.

Lemma ilike_filter_case (f f' : option string) (field : string) :
  Text.lower (text_of f) = Text.lower (text_of f') ->
  Spec.ilike_filter f field = Spec.ilike_filter f' field.
Proof.
  intro H. unfold Spec.ilike_filter, Text.ilike.
  rewrite (truthy_lower f f' H), !TextFacts.lower_wrap, H. reflexivity.
Qed.

(** X13. [search] does not see the case of its filters: filters that agree
    once their ASCII letters are folded select the same contacts. *)
Theorem search_ignores_filter_case (env : Env)
    (first_name last_name email first_name' last_name' email' : option string)
    (skip limit : Z) (user : User.t) (db : Database) :
  Text.lower (text_of first_name) = Text.lower (text_of first_name') ->
  Text.lower (text_of last_name) = Text.lower (text_of last_name') ->
  Text.lower (text_of email) = Text.lower (text_of email') ->
  repository_contacts.search env first_name last_name email skip limit user db
  = repository_contacts.search env first_name' last_name' email' skip limit user db.
Proof.
  intros Hf Hl He. rewrite !search_eq.
  rewrite (filter_ext (Spec.search_selects first_name last_name email user)
             (Spec.search_selects first_name' last_name' email' user));
    [reflexivity|].
  intro c. unfold Spec.search_selects.
  now rewrite (ilike_filter_case _ _ _ Hf), (ilike_filter_case _ _ _ Hl),
    (ilike_filter_case _ _ _ He).
Qed.

Lemma search_ignores_filter_case_witness :
  repository_contacts.search (up t1) (Some "JOHN") None (Some "X.com") 0 10 alice db0
  = repository_contacts.search (up t1) (Some "john") (Some "") (Some "x.COM") 0 10 alice db0.
Proof.
  exact (search_ignores_filter_case (up t1) (Some "JOHN") None (Some "X.com")
           (Some "john") (Some "") (Some "x.COM") 0 10 alice db0
           eq_refl eq_refl eq_refl).
Defined.

Lemma percent_lower (c : ascii) :
  Ascii.eqb (Text.lower_ascii c) "%" = Ascii.eqb c "%".
Proof.
  destruct c as [[] [] [] [] [] [] [] []]; reflexivity.
Qed.

Lemma all_percent_lower (x : string) : all_percent (Text.lower x) = all_percent x.
Proof.
  induction x as [|c x IH]; simpl; [reflexivity|]. now rewrite percent_lower, IH.
Qed.

Lemma all_percent_wrap (x : string) :
  all_percent x = true -> all_percent (Text.wrap x) = true.
Proof.
  intro H. unfold Text.wrap. simpl.
  induction x as [|c x IH]; simpl; [reflexivity|].
  simpl in H. apply andb_prop in H as [Hc Hx]. rewrite Hc. now apply IH.
Qed.

Lemma parse_all_percent (x : string) :
  all_percent x = true ->
  exists ts, Text.parse_pattern x = Some ts /\ Forall (eq Text.TAny) ts /\
             (x <> EmptyString -> ts <> []).
Proof.
  induction x as [|c x IH]; intro H.
  - exists []. now repeat split.
  - simpl in H. apply andb_prop in H as [Hc Hx].
    destruct (IH Hx) as [ts [Hp [Hall _]]].
    exists (Text.TAny :: ts). rewrite TextFacts.parse_cons, Hc, Hp.
    repeat split; [now constructor | discriminate].
Qed.

Lemma match_all_any (ts : list Text.tok) (s : string) :
  ts <> [] -> Forall (eq Text.TAny) ts -> Text.match_toks ts s = true.
Proof.
  induction ts as [|t ts IH]; intros Hne Hall; [congruence|].
  inversion Hall as [|t' ts' Ht Hts]; subst.
  rewrite TextFacts.match_any_unfold.
  destruct ts as [|t2 ts2].
  - rewrite <- TextFacts.match_any_unfold. apply TextFacts.match_any_end.
  - rewrite IH; [reflexivity | discriminate | exact Hts].
Qed.

Lemma ilike_filter_all_percent (f : option string) (field : string) :
  all_percent (text_of f) = true -> Spec.ilike_filter f field = true.
Proof.
  intro H. unfold Spec.ilike_filter. destruct (truthy f); [|reflexivity].
  unfold Text.ilike, Text.like.
  assert (Hw : all_percent (Text.lower (Text.wrap (text_of f))) = true)
    by (rewrite all_percent_lower; now apply all_percent_wrap).
  destruct (parse_all_percent _ Hw) as [ts [-> [Hall Hne]]]. simpl.
  apply match_all_any; [|exact Hall].
  apply Hne. rewrite TextFacts.lower_wrap. discriminate.
Qed.

(** X14. A filter made only of [%] signs selects what no filter selects:
    each such filter can be dropped without changing the result of
    [search]. *)
Theorem search_percent_filter_is_no_filter (env : Env)
    (first_name last_name email : option string) (skip limit : Z)
    (user : User.t) (db : Database) :
  (all_percent (text_of first_name) = true ->
   repository_contacts.search env first_name last_name email skip limit user db
   = repository_contacts.search env None last_name email skip limit user db) /\
  (all_percent (text_of last_name) = true ->
   repository_contacts.search env first_name last_name email skip limit user db
   = repository_contacts.search env first_name None email skip limit user db) /\
  (all_percent (text_of email) = true ->
   repository_contacts.search env first_name last_name email skip limit user db
   = repository_contacts.search env first_name last_name None skip limit user db).
Proof.
  repeat split; intro H; rewrite !search_eq.
  - rewrite (filter_ext (Spec.search_selects first_name last_name email user)
               (Spec.search_selects None last_name email user)); [reflexivity|].
    intro c. unfold Spec.search_selects.
    now rewrite (ilike_filter_all_percent first_name _ H).
  - rewrite (filter_ext (Spec.search_selects first_name last_name email user)
               (Spec.search_selects first_name None email user)); [reflexivity|].
    intro c. unfold Spec.search_selects.
    now rewrite (ilike_filter_all_percent last_name _ H).
  - rewrite (filter_ext (Spec.search_selects first_name last_name email user)
               (Spec.search_selects first_name last_name None user)); [reflexivity|].
    intro c. unfold Spec.search_selects.
    now rewrite (ilike_filter_all_percent email _ H).
Qed.

Lemma search_percent_filter_is_no_filter_witness :
  repository_contacts.search (up t1) (Some "%%") (Some "oe") None 0 10 alice db0
  = repository_contacts.search (up t1) None (Some "oe") None 0 10 alice db0.
Proof.
  exact (proj1 (search_percent_filter_is_no_filter (up t1) (Some "%%") (Some "oe") None
                  0 10 alice db0) eq_refl).
Defined.

(** ** The window of [get_birthdays] *)

(** X15. The window of [get_birthdays] has no lower end and grows with
    [days]: on a reachable storage, for day bounds that fit their 32-bit
    parameters, whatever is returned for [days] is returned for every larger
    value, and for [days >= -1] every contact of the caller born in the
    current month on or before today's day-of-month is returned. *)
Theorem get_birthdays_window_grows (env : Env) (days days' : Z) (user : User.t)
    (db : Database) :
  storage_up env = true ->
  in_int32 (day (today env) + days + 1) = true ->
  in_int32 (day (today env) + days' + 1) = true ->
  exists rows rows',
    repository_contacts.get_birthdays env days user db = (Ok rows, db) /\
    repository_contacts.get_birthdays env days' user db = (Ok rows', db) /\
    (days <= days' -> incl rows rows') /\
    (-1 <= days ->
     forall c b,
       In c (contacts db) -> Contact.user_id c = Some (User.id user) ->
       Contact.birthday c = Some b -> month (dt_date b) = month (today env) ->
       day (dt_date b) <= day (today env) ->
       In c rows).
Proof.
  intros Hs Hfit Hfit'. rewrite !get_birthdays_eq, Hs, Hfit, Hfit'.
  eexists. eexists. split; [reflexivity|]. split; [reflexivity|].
  unfold Spec.birthdaysWithin. split.
  - intros Hle c Hc. apply filter_In in Hc as [Hin Hc].
    apply andb_prop in Hc as [Ho Hw].
    apply filter_In. split; [exact Hin|]. rewrite Ho. simpl.
    apply birthday_within_spec in Hw as [b' [Hb' [Hm' Hd']]].
    apply birthday_within_spec. exists b'. repeat split; try assumption. lia.
  - intros Hdays c b Hin Hown Hb Hm Hd. apply filter_In. split; [exact Hin|].
    apply andb_true_intro. split; [now apply owned_spec|].
    apply birthday_within_spec. exists b. repeat split; try assumption. lia.
Qed.

(** On 30 May, a contact born on 1 May is still listed. *)
Lemma get_birthdays_window_grows_witness :
  let early := Contact.mk 5 "May" "Day" "may@x.com" "1"
                 (Some (midnight (mkDate 1970 5 1))) t0 t0 (Some 1) in
  let db := mkDatabase [early; jane] [alice] 6 0 in
  repository_contacts.get_birthdays (up t1) 7 alice db = (Ok [early], db).
Proof.
  intros early db.
  destruct (get_birthdays_window_grows (up t1) 7 7 alice db eq_refl eq_refl eq_refl)
    as [rows [rows' [Hrun _]]].
  rewrite Hrun. f_equal. injection Hrun as <-. reflexivity.
Defined.

(** ** The users repository *)

Lemma refresh_user_rows (env : Env) (pk : Z) (db : Database) :
  storage_up env = true ->
  refresh_user env pk db =
  (match filter (fun u => User.id u =? pk) (users db) with
   | [r] => Ok r
   | _ => Raise InvalidRequestError
   end, db).
Proof.
  intro Hs. unfold refresh_user, bind.
  rewrite (execute_up env _ [fun u => User.id u =? pk] db Hs)
    by (simpl; decide_where).
  unfold table, Mapped_User. simpl.
  replace (filter (all_hold [fun u => User.id u =? pk]) (users db))
    with (filter (fun u => User.id u =? pk) (users db))
    by (apply filter_ext; intro u; unfold all_hold; simpl; now rewrite andb_true_r).
  destruct (filter (fun u => User.id u =? pk) (users db)) as [|r [|r' rs]];
    reflexivity.
Qed.

Lemma nullable_eqb_eq (a b : option string) : nullable_eqb a b = true -> a = b.
Proof.
  destruct a as [x|], b as [y|]; simpl; try discriminate; [|reflexivity].
  intro H. apply String.eqb_eq in H. now subst.
Qed.

Lemma same_user_id_row (db : Database) (u : User.t) :
  unique_user_ids db -> In u (users db) ->
  filter (fun x => User.id x =? User.id u) (users db) = [u].
Proof.
  intros Hu Hin. apply (filter_unique User.id); try assumption.
  - apply Z.eqb_refl.
  - intros x _ Hx. now apply Z.eqb_eq.
Qed.

Lemma same_email_row (db : Database) (u : User.t) :
  unique_emails db -> In u (users db) ->
  filter (has_email (User.email u)) (users db) = [u].
Proof.
  intros Hu Hin. apply (filter_unique User.email); try assumption.
  - apply String.eqb_refl.
  - intros x _ Hx. now apply String.eqb_eq.
Qed.

(** X16. Confirming an address twice is confirming it once: the second
    [confirmed_email] completes and leaves both tables as the first one
    left them, [updated_at] included. *)
Theorem confirmed_email_twice (env1 env2 : Env) (email : string) (db : Database)
    (u : User.t) :
  storage_up env1 = true -> storage_up env2 = true ->
  filter (has_email email) (users db) = [u] ->
  exists db1 db2,
    repository_users.confirmed_email env1 email db = (Ok tt, db1) /\
    repository_users.confirmed_email env2 email db1 = (Ok tt, db2) /\
    users db2 = users db1 /\ contacts db2 = contacts db1.
Proof.
  intros Hs1 Hs2 Hu.
  rewrite (confirmed_email_known env1 email db u Hs1 Hu).
  destruct (User.confirmed u) eqn:Hc.
  - eexists. eexists. split; [reflexivity|].
    match goal with
    | |- context [repository_users.confirmed_email env2 email ?d] =>
        rewrite (confirmed_email_known env2 email d u Hs2 Hu), Hc
    end.
    split; [reflexivity | split; reflexivity].
  - assert (Hu1 : filter (has_email email)
                    (map (fun x => if User.id x =? User.id u
                                   then confirmed_set (clock env1) true x else x)
                       (users db))
                  = [confirmed_set (clock env1) true u]).
    { rewrite filter_map_preserved
        by (intro x; now destruct (User.id x =? User.id u)).
      rewrite Hu. simpl. now rewrite Z.eqb_refl. }
    eexists. eexists. split; [reflexivity|].
    match goal with
    | |- context [repository_users.confirmed_email env2 email ?d] =>
        rewrite (confirmed_email_known env2 email d _ Hs2 Hu1)
    end.
    split; [reflexivity | split; reflexivity].
Qed.

Lemma confirmed_email_twice_witness :
  exists db1 db2,
    repository_users.confirmed_email (up t1) "alice@x.com" db0 = (Ok tt, db1) /\
    repository_users.confirmed_email (up t2) "alice@x.com" db1 = (Ok tt, db2) /\
    users db2 = users db1.
Proof.
  destruct (confirmed_email_twice (up t1) (up t2) "alice@x.com" db0 alice
              eq_refl eq_refl eq_refl) as [db1 [db2 [H1 [H2 [Hus _]]]]].
  now exists db1, db2.
Defined.

Lemma get_user_by_email_row (env : Env) (db : Database) (u : User.t) :
  storage_up env = true -> filter (has_email (User.email u)) (users db) = [u] ->
  repository_users.get_user_by_email env (User.email u) db = (Ok (Some u), db).
Proof.
  intros Hs Hu. now rewrite get_user_by_email_eq, Hs, Hu.
Qed.

(** X17. With unique user ids and addresses, [update_token] on a stored
    user makes the given token (or [None]) that user's refresh token and
    changes nothing else about the user but [updated_at]; the other users
    and the contacts are left alone, and [get_user_by_email] then returns
    the user with that token. *)
Theorem update_token_stores_token (env env' : Env) (user : User.t)
    (token : option string) (db : Database) :
  storage_up env = true -> storage_up env' = true ->
  unique_user_ids db -> unique_emails db -> In user (users db) ->
  fits_nullable 255 token = true ->
  exists u' db',
    repository_users.update_token env user token db = (Ok tt, db') /\
    repository_users.get_user_by_email env' (User.email user) db' = (Ok (Some u'), db') /\
    User.refresh_token u' = token /\
    User.id u' = User.id user /\ User.email u' = User.email user /\
    User.password u' = User.password user /\ User.confirmed u' = User.confirmed user /\
    (forall x, In x (users db) -> x <> user -> In x (users db')) /\
    contacts db' = contacts db.
Proof.
  intros Hs Hs' Hids Hemails Hin Hfit.
  unfold repository_users.update_token, bind, commit_user. rewrite Hs.
  simpl negb. cbv iota. unfold flush_user.
  destruct (nullable_eqb token (User.refresh_token user)) eqn:Hsame.
  - exists user. eexists. split; [reflexivity|]. split; [|repeat split].
    + apply get_user_by_email_row; [exact Hs'|]. simpl.
      now apply same_email_row.
    + symmetry. now apply nullable_eqb_eq.
    + intros x Hx _. exact Hx.
  - rewrite Hfit. simpl negb. cbv iota.
    exists (token_set (clock env) token user). eexists.
    split; [reflexivity|]. split; [|repeat split].
    + apply (get_user_by_email_row env' _ (token_set (clock env) token user) Hs').
      simpl. rewrite filter_map_preserved
        by (intro x; now destruct (User.id x =? User.id user)).
      rewrite (same_email_row db user Hemails Hin). simpl. now rewrite Z.eqb_refl.
    + intros x Hx Hne. simpl. apply in_map_iff. exists x. split; [|exact Hx].
      destruct (User.id x =? User.id user) eqn:Hid; [|reflexivity].
      exfalso. apply Hne. apply Z.eqb_eq in Hid.
      assert (Hxs : In x (filter (fun y => User.id y =? User.id user) (users db)))
        by (apply filter_In; split; [exact Hx | now apply Z.eqb_eq]).
      rewrite (same_user_id_row db user Hids Hin) in Hxs. now destruct Hxs as [<-|[]].
Qed.

Lemma db0_unique_user_ids : unique_user_ids db0.
Proof.
  unfold unique_user_ids. simpl. repeat constructor; simpl; intuition discriminate.
Defined.

Lemma db0_unique_emails : unique_emails db0.
Proof.
  unfold unique_emails. simpl. repeat constructor; simpl; intuition discriminate.
Defined.

Lemma update_token_stores_token_witness :
  exists u' db',
    repository_users.update_token (up t1) bob (Some "refresh.jwt") db0 = (Ok tt, db') /\
    repository_users.get_user_by_email (up t2) "bob@x.com" db' = (Ok (Some u'), db') /\
    User.refresh_token u' = Some "refresh.jwt".
Proof.
  destruct (update_token_stores_token (up t1) (up t2) bob (Some "refresh.jwt") db0
              eq_refl eq_refl db0_unique_user_ids db0_unique_emails
              (or_intror (or_introl eq_refl)) eq_refl)
    as [u' [db' [Hrun [Hget [Htoken _]]]]].
  now exists u', db'.
Defined.

(** X18. [update_avatar_url] for an address no user has raises
    [AttributeError] (the connection error on an unreachable storage) and
    changes nothing; for the address of a stored user, with unique ids, it
    returns that user with the given avatar (or none) and otherwise
    unchanged but for [updated_at]. *)
Theorem update_avatar_url_sets_avatar (env : Env) (email : string)
    (url : option string) (db : Database) :
  ((forall u, In u (users db) -> User.email u <> email) ->
   repository_users.update_avatar_url env email url db
     = (Raise (if storage_up env then AttributeError else OperationalError), db)) /\
  (forall u,
     storage_up env = true -> unique_user_ids db ->
     filter (has_email email) (users db) = [u] ->
     fits_nullable 255 url = true ->
     exists u' db',
       repository_users.update_avatar_url env email url db = (Ok u', db') /\
       In u' (users db') /\
       User.avatar u' = url /\
       User.id u' = User.id u /\ User.email u' = email /\
       User.username u' = User.username u /\ User.password u' = User.password u /\
       User.refresh_token u' = User.refresh_token u /\
       User.confirmed u' = User.confirmed u /\
       contacts db' = contacts db).
Proof.
  split.
  - intro Hno. unfold repository_users.update_avatar_url, bind.
    rewrite get_user_by_email_eq, (unknown_email_no_rows email db Hno).
    now destruct (storage_up env).
  - intros u Hs Hids Hu Hfit.
    assert (Hin : In u (users db) /\ User.email u = email).
    { assert (H : In u (filter (has_email email) (users db))) by (rewrite Hu; now left).
      apply filter_In in H as [Hin He]. split; [exact Hin | now apply String.eqb_eq]. }
    destruct Hin as [Hin Hemail].
    unfold repository_users.update_avatar_url, bind.
    rewrite get_user_by_email_eq, Hs, Hu. simpl.
    unfold commit_user. rewrite Hs. simpl negb. cbv iota. unfold flush_user.
    destruct (nullable_eqb url (User.avatar u)) eqn:Hsame.
    + rewrite (refresh_user_rows env _ _ Hs). simpl users.
      rewrite (same_user_id_row db u Hids Hin).
      exists u. eexists. split; [reflexivity|]. repeat split; try assumption.
      symmetry. now apply nullable_eqb_eq.
    + rewrite Hfit. simpl negb. cbv iota.
      rewrite (refresh_user_rows env _ _ Hs). simpl users.
      rewrite filter_map_preserved
        by (intro x; destruct (User.id x =? User.id u) eqn:E; simpl; now rewrite ?E).
      rewrite (same_user_id_row db u Hids Hin). simpl. rewrite Z.eqb_refl.
      exists (avatar_set (clock env) url u). eexists. split; [reflexivity|].
      repeat split; try assumption.
      simpl. apply in_map_iff. exists u. split; [now rewrite Z.eqb_refl | exact Hin].
Qed.

Lemma update_avatar_url_sets_avatar_witness :
  repository_users.update_avatar_url (up t1) "nobody@x.com" (Some "http://img") db0
    = (Raise AttributeError, db0) /\
  exists u' db',
    repository_users.update_avatar_url (up t1) "alice@x.com" (Some "http://img") db0
      = (Ok u', db') /\
    User.avatar u' = Some "http://img" /\ User.id u' = 1.
Proof.
  destruct (update_avatar_url_sets_avatar (up t1) "nobody@x.com" (Some "http://img") db0)
    as [Hmissing _].
  split.
  - apply Hmissing. intros u Hin. simpl in Hin.
    destruct Hin as [<-|[<-|[]]]; discriminate.
  - destruct (proj2 (update_avatar_url_sets_avatar (up t1) "alice@x.com"
                       (Some "http://img") db0)
                alice eq_refl db0_unique_user_ids eq_refl eq_refl)
      as [u' [db' [Hrun [_ [Hav [Hid _]]]]]].
    now exists u', db'.
Defined.

Lemma no_user_with_email (email : string) (us : list User.t) :
  existsb (fun u => String.eqb (User.email u) email) us = false ->
  filter (has_email email) us = [].
Proof.
  intro H. apply filter_none. intros x Hx. unfold has_email.
  destruct (String.eqb (User.email x) email) eqn:He; [|reflexivity].
  assert (Hex : existsb (fun u => String.eqb (User.email u) email) us = true)
    by (apply existsb_exists; now exists x).
  congruence.
Qed.

(** X19. [create_user] does not depend on the avatar lookup succeeding: on
    a reachable storage, for a form that fits the columns, a fresh id and an
    address not yet taken, it stores and returns a user who is unconfirmed,
    has no refresh token and has the looked-up address as avatar, or none
    when the lookup raised; [get_user_by_email] then finds that user.  With
    the address already taken it raises [IntegrityError] and stores
    nothing. *)
Theorem create_user_best_effort_avatar (env env' : Env) (pk : Z)
    (gravatar : string -> result string) (body : UserSchema.t) (db : Database) :
  storage_up env = true -> storage_up env' = true ->
  form_fits body (avatar_of gravatar body) = true ->
  existsb (fun u => User.id u =? pk) (users db) = false ->
  (existsb (fun u => String.eqb (User.email u) (UserSchema.email body)) (users db) = false ->
   exists u db',
     repository_users.create_user env pk gravatar body db = (Ok u, db') /\
     users db' = (users db ++ [u])%list /\ contacts db' = contacts db /\
     User.id u = pk /\ User.username u = UserSchema.username body /\
     User.email u = UserSchema.email body /\
     User.password u = UserSchema.password body /\
     User.confirmed u = false /\ User.refresh_token u = None /\
     User.avatar u = avatar_of gravatar body /\
     (forall e, gravatar (UserSchema.email body) = Raise e -> User.avatar u = None) /\
     repository_users.get_user_by_email env' (UserSchema.email body) db'
       = (Ok (Some u), db')) /\
  (existsb (fun u => String.eqb (User.email u) (UserSchema.email body)) (users db) = true ->
   repository_users.create_user env pk gravatar body db = (Raise IntegrityError, db)).
Proof.
  intros Hs Hs' Hfit Hpk.
  unfold repository_users.create_user, bind, commit_user. rewrite Hs.
  simpl negb. cbv iota. unfold flush_user.
  fold (avatar_of gravatar body). unfold form_fits in Hfit. rewrite Hfit, Hpk.
  simpl negb. cbv iota. split.
  - intro Hemail. rewrite Hemail.
    rewrite (refresh_user_rows env _ _ Hs). simpl users.
    rewrite filter_app, (existsb_false_filter _ _ Hpk). simpl. rewrite Z.eqb_refl.
    eexists. eexists. split; [reflexivity|]. repeat split.
    + intros e He. unfold avatar_of. now rewrite He.
    + rewrite get_user_by_email_eq, Hs'. simpl users.
      rewrite filter_app, (no_user_with_email _ _ Hemail). simpl.
      unfold has_email. simpl. now rewrite String.eqb_refl.
  - intro Hemail. now rewrite Hemail.
Qed.

(** Carol signs up while the avatar lookup is broken: she is stored
    without avatar; bob's address cannot be taken twice. *)
Lemma create_user_best_effort_avatar_witness :
  (exists u db',
     repository_users.create_user (up t1) 3 gravatar_broken carol_form db0 = (Ok u, db') /\
     User.avatar u = None /\ User.confirmed u = false) /\
  repository_users.create_user (up t1) 3 gravatar_ok
    (UserSchema.mk "bobby" "bob@x.com" "hash4") db0
    = (Raise IntegrityError, db0).
Proof.
  split.
  - destruct (proj1 (create_user_best_effort_avatar (up t1) (up t2) 3 gravatar_broken
                       carol_form db0 eq_refl eq_refl eq_refl eq_refl) eq_refl)
      as [u [db' [Hrun [_ [_ [_ [_ [_ [_ [Hconf [_ [_ [Hav _]]]]]]]]]]]]].
    exists u, db'. split; [exact Hrun|]. split; [|exact Hconf].
    apply (Hav AttributeError). reflexivity.
  - exact (proj2 (create_user_best_effort_avatar (up t1) (up t2) 3 gravatar_ok
                    (UserSchema.mk "bobby" "bob@x.com" "hash4") db0
                    eq_refl eq_refl eq_refl eq_refl) eq_refl).
Defined.

(** ** The handlers of [src/routes/contacts.py] *)

Lemma path_id_ok (contact_id : Z) :
  1 <= contact_id ->
  routes_contacts.bounded 0 (Some 1) None (Some contact_id) = Some contact_id.
Proof.
  intro H. unfold routes_contacts.bounded. apply Z.leb_le in H. now rewrite H.
Qed.

Lemma path_id_refused (contact_id : Z) :
  contact_id < 1 ->
  routes_contacts.bounded 0 (Some 1) None (Some contact_id) = None.
Proof.
  intro H. unfold routes_contacts.bounded. apply Z.leb_gt in H. now rewrite H.
Qed.

Lemma get_contact_reads_own_row (env : Env) (user : User.t) (db : Database)
    (c : Contact.t) :
  storage_up env = true -> unique_ids db -> In c (contacts db) ->
  in_int32 (Contact.id c) = true ->
  Contact.user_id c = Some (User.id user) ->
  repository_contacts.get_contact env (Contact.id c) user db = (Ok (Some c), db).
Proof.
  intros Hs Hu Hin Hid Hown. unfold repository_contacts.get_contact, bind.
  fold (lookup_stmt user (Contact.id c)).
  now rewrite lookup_rows, Hs, Hid, (owned_target user db c Hu Hin Hown).
Qed.

Lemma beyond_integer (contact_id : Z) :
  max_int32 < contact_id -> in_int32 contact_id = false.
Proof.
  intro H. unfold in_int32. apply Z.leb_gt in H. rewrite H. apply andb_false_r.
Qed.

(** X20. [GET /contacts/{contact_id}]: an id below 1 is refused with 422
    before the storage is read; on a reachable storage, an id up to the
    largest 32-bit integer that is not a contact of the caller, whether it
    exists under another owner or not at all, is answered with the same 404
    "NOT FOUND", and a larger id with 500; the caller's own contact is sent
    with 200, serialised without its owner. *)
Theorem get_contact_route_statuses (env : Env) (contact_id : Z) (user : User.t)
    (db : Database) :
  (contact_id < 1 ->
   routes_contacts.get_contact env contact_id user db
     = (routes_contacts.Unprocessable, db)) /\
  (1 <= contact_id <= max_int32 -> storage_up env = true ->
   not_owned user contact_id db ->
   routes_contacts.get_contact env contact_id user db
     = (routes_contacts.Refused 404 "NOT FOUND", db)) /\
  (max_int32 < contact_id -> storage_up env = true ->
   routes_contacts.get_contact env contact_id user db
     = (routes_contacts.Refused 500 "Internal Server Error", db)) /\
  (forall c,
     1 <= contact_id <= max_int32 -> storage_up env = true -> unique_ids db ->
     In c (contacts db) -> Contact.id c = contact_id ->
     Contact.user_id c = Some (User.id user) ->
     routes_contacts.get_contact env contact_id user db
       = (routes_contacts.Sent 200 (routes_contacts.to_ContactInDB c), db)).
Proof.
  unfold routes_contacts.get_contact, routes_contacts.answer, bind.
  split; [|split; [|split]].
  - intro Hid. now rewrite (path_id_refused _ Hid).
  - intros Hid Hs Hnot. rewrite (path_id_ok _ (proj1 Hid)).
    rewrite (get_contact_not_owned env user contact_id db Hnot).
    unfold lookup_miss. now rewrite Hs, (path_id_fits _ Hid).
  - intros Hid Hs. rewrite path_id_ok by (unfold max_int32 in Hid; lia).
    unfold repository_contacts.get_contact, bind.
    fold (lookup_stmt user contact_id).
    now rewrite lookup_rows, Hs, (beyond_integer _ Hid).
  - intros c Hid Hs Hu Hin <- Hown. rewrite (path_id_ok _ (proj1 Hid)).
    now rewrite (get_contact_reads_own_row env user db c Hs Hu Hin
                   (path_id_fits _ Hid) Hown).
Qed.

(** Carl belongs to bob: alice is told 404 for id 3 as for id 99, and bob
    gets carl. *)
Lemma get_contact_route_statuses_witness :
  routes_contacts.get_contact (up t1) 3 alice db0
    = (routes_contacts.Refused 404 "NOT FOUND", db0) /\
  routes_contacts.get_contact (up t1) 3 bob db0
    = (routes_contacts.Sent 200 (routes_contacts.to_ContactInDB carl), db0) /\
  routes_contacts.get_contact (up t1) 0 bob db0 = (routes_contacts.Unprocessable, db0) /\
  routes_contacts.get_contact (up t1) 2147483648 bob db0
    = (routes_contacts.Refused 500 "Internal Server Error", db0).
Proof.
  destruct (get_contact_route_statuses (up t1) 3 alice db0) as [_ [Hmiss _]].
  destruct (get_contact_route_statuses (up t1) 3 bob db0) as [_ [_ [_ Hhit]]].
  destruct (get_contact_route_statuses (up t1) 0 bob db0) as [Hbad _].
  destruct (get_contact_route_statuses (up t1) 2147483648 bob db0) as [_ [_ [Hbig _]]].
  split; [|split; [|split]].
  - apply Hmiss; [unfold max_int32; lia | reflexivity | exact carl_not_owned_by_alice].
  - apply (Hhit carl); [unfold max_int32; lia | reflexivity | exact db0_unique_ids
                       | simpl; tauto | reflexivity | reflexivity].
  - apply Hbad. lia.
  - apply Hbig; [unfold max_int32; lia | reflexivity].
Defined.

Lemma at_most_one_target (user : User.t) (contact_id : Z) (db : Database) :
  unique_ids db ->
  filter (is_target user contact_id) (contacts db) = [] \/
  exists c, filter (is_target user contact_id) (contacts db) = [c].
Proof.
  intro Hu.
  pose proof (filter_keeps_keys_unique Contact.id (is_target user contact_id) (contacts db) Hu)
    as Hnd.
  assert (Hids : forall x, In x (filter (is_target user contact_id) (contacts db)) ->
                           Contact.id x = contact_id).
  { intros x Hx. apply filter_In in Hx as [_ Hx]. now apply is_target_spec in Hx. }
  destruct (filter (is_target user contact_id) (contacts db)) as [|c [|c' cs]].
  - now left.
  - right. now exists c.
  - exfalso. simpl in Hnd. apply NoDup_cons_iff in Hnd as [Hfresh _].
    apply Hfresh. left.
    rewrite (Hids c (or_introl eq_refl)), (Hids c' (or_intror (or_introl eq_refl))).
    reflexivity.
Qed.

(** X21. [DELETE /contacts/{contact_id}] has no not-found answer: with
    unique keys and a reachable storage every id from 1 to the largest
    32-bit integer is answered with an empty 204, whether a contact of the
    caller was deleted or none was found, in which case the storage is as
    before; a larger id is answered with 500. *)
Theorem delete_contact_route_no_not_found (env : Env) (contact_id : Z)
    (user : User.t) (db : Database) :
  storage_up env = true -> unique_ids db ->
  (1 <= contact_id <= max_int32 ->
   fst (routes_contacts.delete_contact env contact_id user db)
     = routes_contacts.Sent 204 tt /\
   (not_owned user contact_id db ->
    routes_contacts.delete_contact env contact_id user db
      = (routes_contacts.Sent 204 tt, db))) /\
  (max_int32 < contact_id ->
   routes_contacts.delete_contact env contact_id user db
     = (routes_contacts.Refused 500 "Internal Server Error", db)).
Proof.
  intros Hs Hu.
  unfold routes_contacts.delete_contact, routes_contacts.answer.
  split.
  - intro Hid. rewrite (path_id_ok _ (proj1 Hid)). split.
    + unfold repository_contacts.delete_contact, bind.
      fold (lookup_stmt user contact_id).
      rewrite lookup_rows, Hs, (path_id_fits _ Hid).
      destruct (at_most_one_target user contact_id db Hu) as [-> | [c ->]].
      * reflexivity.
      * simpl. unfold commit. rewrite Hs. reflexivity.
    + intro Hnot. rewrite (delete_contact_not_owned env user contact_id db Hnot).
      unfold lookup_miss. now rewrite Hs, (path_id_fits _ Hid).
  - intro Hid. rewrite path_id_ok by (unfold max_int32 in Hid; lia).
    unfold repository_contacts.delete_contact, bind.
    fold (lookup_stmt user contact_id).
    now rewrite lookup_rows, Hs, (beyond_integer _ Hid).
Qed.

Lemma delete_contact_route_no_not_found_witness :
  routes_contacts.delete_contact (up t1) 99 alice db0
    = (routes_contacts.Sent 204 tt, db0) /\
  fst (routes_contacts.delete_contact (up t1) 1 alice db0) = routes_contacts.Sent 204 tt /\
  routes_contacts.delete_contact (up t1) 2147483648 alice db0
    = (routes_contacts.Refused 500 "Internal Server Error", db0).
Proof.
  split; [|split].
  - apply (proj1 (delete_contact_route_no_not_found (up t1) 99 alice db0 eq_refl
                    db0_unique_ids) ltac:(unfold max_int32; lia)).
    intros c Hin [Hid _]. simpl in Hin.
    destruct Hin as [<-|[<-|[<-|[]]]]; discriminate.
  - exact (proj1 (proj1 (delete_contact_route_no_not_found (up t1) 1 alice db0 eq_refl
                           db0_unique_ids) ltac:(unfold max_int32; lia))).
  - exact (proj2 (delete_contact_route_no_not_found (up t1) 2147483648 alice db0 eq_refl
                    db0_unique_ids) ltac:(unfold max_int32; lia)).
Defined.

Lemma query_in_range (default lo hi v : Z) :
  lo <= v -> v <= hi ->
  routes_contacts.bounded default (Some lo) (Some hi) (Some v) = Some v.
Proof.
  intros Hlo Hhi. unfold routes_contacts.bounded.
  apply Z.leb_le in Hlo, Hhi. now rewrite Hlo, Hhi.
Qed.

Lemma query_out_of_range (default lo hi v : Z) :
  v < lo \/ hi < v ->
  routes_contacts.bounded default (Some lo) (Some hi) (Some v) = None.
Proof.
  intro H. unfold routes_contacts.bounded.
  destruct H as [H|H]; apply Z.leb_gt in H; rewrite H; [reflexivity|].
  now rewrite andb_false_r.
Qed.




(** X23. [GET /contacts/search] bounds its limit to 10..100 but not its
    [skip]: with a limit in range, a negative [skip] and an unreachable
    storage are both answered with 200 and an empty list, and no search is
    ever answered with an error status. *)
Theorem serch_route_hides_failures (env : Env)
    (first_name last_name email : option string) (skip limit : Z)
    (user : User.t) (db : Database) :
  (limit < 10 \/ 100 < limit ->
   routes_contacts.serch env first_name last_name email (Some skip) (Some limit) user db
     = (routes_contacts.Unprocessable, db)) /\
  (10 <= limit <= 100 ->
   (storage_up env = false \/ skip < 0 ->
    routes_contacts.serch env first_name last_name email (Some skip) (Some limit) user db
      = (routes_contacts.Sent 200 [], db)) /\
   routes_contacts.reply_status
     (fst (routes_contacts.serch env first_name last_name email
             (Some skip) (Some limit) user db)) = 200).
Proof.
  unfold routes_contacts.serch.
  change (routes_contacts.bounded 0 None None (Some skip)) with (Some skip).
  split.
  - intro H. now rewrite (query_out_of_range 10 10 100 limit H).
  - intros [Hlo Hhi]. rewrite (query_in_range 10 10 100 limit Hlo Hhi).
    unfold routes_contacts.answer. rewrite search_eq. split.
    + intros [Hs | Hskip].
      * now rewrite Hs.
      * unfold accepted_paging. apply Z.ltb_lt in Hskip. rewrite Hskip. simpl.
        now rewrite !andb_false_r.
    + now destruct (storage_up env && accepted_paging skip limit).
Qed.

Lemma serch_route_hides_failures_witness :
  routes_contacts.serch (up t1) (Some "jo") None None (Some (-1)) (Some 10) alice db0
    = (routes_contacts.Sent 200 [], db0) /\
  routes_contacts.serch (down t1) (Some "jo") None None (Some 0) (Some 10) alice db0
    = (routes_contacts.Sent 200 [], db0).
Proof.
  destruct (serch_route_hides_failures (up t1) (Some "jo") None None (-1) 10 alice db0)
    as [_ Hneg].
  destruct (serch_route_hides_failures (down t1) (Some "jo") None None 0 10 alice db0)
    as [_ Hdown].
  split.
  - apply (proj1 (Hneg ltac:(lia))). right. lia.
  - apply (proj1 (Hdown ltac:(lia))). now left.
Defined.




(** ** A filter that ends in the escape character *)

Lemma lits_app (a b : string) :
  Text.lits (a ++ b) = (Text.lits a ++ Text.lits b)%list.
Proof.
  induction a as [|c a IH]; simpl; [reflexivity | now rewrite IH].
Qed.

Lemma parse_no_meta_escaped (g : string) :
  Text.no_meta g = true ->
  Text.parse_pattern (g ++ "\%") = Some (Text.lits (g ++ "%")).
Proof.
  induction g as [|c g IH]; [reflexivity|].
  intro H. simpl in H. apply andb_prop in H as [Hc Hg].
  unfold Text.is_meta in Hc. apply negb_true_iff in Hc.
  apply orb_false_elim in Hc as [Hc Hbs]. apply orb_false_elim in Hc as [Hpc Hus].
  change (String c g ++ "\%") with (String c (g ++ "\%")).
  rewrite TextFacts.parse_cons, Hpc, Hus, Hbs, (IH Hg). reflexivity.
Qed.

Lemma match_lits_eqb (x s : string) :
  Text.match_toks (Text.lits x) s = String.eqb x s.
Proof.
  revert s. induction x as [|c x IH]; intro s; destruct s as [|d s]; try reflexivity.
  simpl. now rewrite IH.
Qed.

Lemma match_any_lits_suffix (y s : string) :
  Text.match_toks (Text.TAny :: Text.lits y) s = true <-> exists pre, s = pre ++ y.
Proof.
  induction s as [|d s IH]; rewrite TextFacts.match_any_unfold, match_lits_eqb.
  - rewrite orb_false_r, String.eqb_eq. split.
    + intros ->. now exists "".
    + intros [pre H]. destruct pre; [exact (eq_sym H) | discriminate].
  - rewrite orb_true_iff, String.eqb_eq, IH. split.
    + intros [-> | [pre ->]]; [now exists "" | now exists (String d pre)].
    + intros [pre H]. destruct pre as [|e pre].
      * left. exact (eq_sym H).
      * right. exists pre. simpl in H. now injection H.
Qed.

Lemma ilike_escaped_end (g field : string) :
  Text.no_meta g = true ->
  Text.ilike field (Text.wrap (g ++ "\")) = Some true <->
  exists pre, Text.lower field = pre ++ Text.lower g ++ "%".
Proof.
  intro Hg. unfold Text.ilike, Text.like.
  rewrite TextFacts.lower_wrap, TextFacts.lower_append.
  change (Text.lower "\") with "\".
  unfold Text.wrap.
  replace ("%" ++ (Text.lower g ++ "\") ++ "%") with (String "%" (Text.lower g ++ "\%")).
  - rewrite TextFacts.parse_cons, Ascii.eqb_refl.
    rewrite parse_no_meta_escaped by now rewrite TextFacts.no_meta_lower.
    simpl option_map. rewrite <- match_any_lits_suffix. split.
    + intro H. now injection H.
    + intro H. now f_equal.
  - simpl. f_equal. induction (Text.lower g) as [|c x IH]; simpl; [reflexivity|].
    now rewrite IH.
Qed.

(** X25. A filter that ends in a backslash turns the closing [%] of the
    pattern into a literal.  On ASCII text, for a filter [g\] whose [g] has
    no pattern character, the field passes exactly when, cases folded, it
    ends in [g] followed by a percent sign, and every contact [search]
    returns for such a first-name filter has such a first name. *)
Theorem search_trailing_backslash (env : Env) (g : string)
    (last_name email : option string) (skip limit : Z) (user : User.t)
    (db : Database) :
  Text.no_meta g = true -> Text.ascii_only g = true ->
  (forall field,
     Text.ascii_only field = true ->
     (Spec.ilike_filter (Some (g ++ "\")) field = true <->
      exists pre, Text.lower field = pre ++ Text.lower g ++ "%")) /\
  (forall rows c,
     ascii_rows user db ->
     fst (repository_contacts.search env (Some (g ++ "\")) last_name email
            skip limit user db) = Ok rows ->
     In c rows ->
     exists pre, Text.lower (Contact.first_name c) = pre ++ Text.lower g ++ "%").
Proof.
  intros Hg _.
  assert (Hfilter : forall field,
             Spec.ilike_filter (Some (g ++ "\")) field = true <->
             exists pre, Text.lower field = pre ++ Text.lower g ++ "%").
  { intro field. rewrite <- (ilike_escaped_end g field Hg).
    unfold Spec.ilike_filter.
    replace (truthy (Some (g ++ "\"))) with true by now destruct g.
    simpl text_of.
    destruct (Text.ilike field (Text.wrap (g ++ "\"))) as [[]|];
      split; congruence. }
  split; [intros field _; apply Hfilter|].
  intros rows c _ Hrows Hc. rewrite search_eq in Hrows. simpl in Hrows.
  destruct (storage_up env && accepted_paging skip limit).
  - injection Hrows as <-.
    apply (In_page (Some skip) (Some limit)) in Hc.
    apply filter_In in Hc as [_ Hc]. unfold Spec.search_selects in Hc.
    apply andb_prop in Hc as [Hc _]. apply andb_prop in Hc as [Hc _].
    apply andb_prop in Hc as [_ Hc]. now apply Hfilter.
  - injection Hrows as <-. contradiction.
Qed.

(** Of two contacts named "Rebate 10%" and "10% off", the filter ["10\"]
    finds the first only. *)
Lemma search_trailing_backslash_witness :
  let rebate := Contact.mk 7 "Rebate 10%" "A" "a@x.com" "1" None t0 t0 (Some 1) in
  let off := Contact.mk 8 "10% off" "B" "b@x.com" "2" None t0 t0 (Some 1) in
  let db := mkDatabase [rebate; off] [alice] 9 0 in
  fst (repository_contacts.search (up t1) (Some "10\") None None 0 10 alice db)
    = Ok [rebate] /\
  exists pre, Text.lower (Contact.first_name rebate) = pre ++ Text.lower "10" ++ "%".
Proof.
  intros rebate off db. split; [reflexivity|].
  apply (proj2 (search_trailing_backslash (up t1) "10" None None 0 10 alice db
                  eq_refl eq_refl)
           [rebate] rebate).
  - intros c Hin _. simpl in Hin. destruct Hin as [<-|[<-|[]]]; reflexivity.
  - reflexivity.
  - now left.
Defined.
